(** * slackcli: a shallow embedding of the command actions

    The command-line client talks to a remote messaging service through a
    thin client object.  The embedding keeps the shape of the TypeScript
    sources:

    - [JS]: the string primitives of the host language that the commands
      use ([trim], [split], [startsWith], [includes], the two regular
      expressions, string comparison, decimal printing);
    - [Vtt]: [parseVttToText] of [lib/vtt-parser.ts], and [VttSpec]: the
      transcript as the specification words it;
    - [Effects]: the monad of a command action: remote calls that may be
      rejected, exceptions and [try]/[catch], [process.exit], the local
      file system and the console;
    - [Messages], [Drafts], [Files], [Conversations]: the command actions.

    Strings are sequences of code units; the embedding covers the code
    units below 256, which is what [Stdlib]'s [string] holds. *)

From Stdlib Require Import ZArith Lia Ascii String DecimalString DecimalNat
  DecimalPos.
From stdpp Require Import gmap strings list sorting.

(** ** Host-language string primitives *)

Module JS.

(** White space recognised by [String.prototype.trim] among the code
    units below 256: TAB, LF, VT, FF, CR, SPACE and NO-BREAK SPACE. *)
Definition is_space (c : ascii) : bool :=
  let n := nat_of_ascii c in
  ((9 <=? n) && (n <=? 13)) || (n =? 32) || (n =? 160).

Fixpoint trimStart (s : string) : string :=
  match s with
  | EmptyString => EmptyString
  | String c s' => if is_space c then trimStart s' else s
  end.

Fixpoint trimEnd (s : string) : string :=
  match s with
  | EmptyString => EmptyString
  | String c s' =>
      match trimEnd s' with
      | EmptyString => if is_space c then EmptyString else String c EmptyString
      | r => String c r
      end
  end.

Definition trim (s : string) : string := trimEnd (trimStart s).

(** Nothing but white space. *)
Fixpoint blank (s : string) : bool :=
  match s with
  | EmptyString => true
  | String c s' => is_space c && blank s'
  end.

(** Truthiness of a string: [Boolean(s)], [s && ...], [s || d]. *)
Definition truthy (s : string) : bool :=
  match s with EmptyString => false | String _ _ => true end.

(** [s || d] on strings. *)
Definition or_else (s d : string) : string := if truthy s then s else d.

(** [s.split(sep)] for a one-character separator: never the empty list. *)
Fixpoint split (sep : ascii) (s : string) : list string :=
  match s with
  | EmptyString => [EmptyString]
  | String c s' =>
      if Ascii.eqb c sep then EmptyString :: split sep s'
      else match split sep s' with
           | h :: t => String c h :: t
           | [] => [String c EmptyString]
           end
  end.

(** [parts.join(sep)]. *)
Definition join (sep : string) (parts : list string) : string :=
  String.concat sep parts.

Definition startsWith (s p : string) : bool := String.prefix p s.

(** [s.includes(needle)]. *)
Fixpoint includes (s needle : string) : bool :=
  String.prefix needle s ||
  match s with
  | EmptyString => false
  | String _ s' => includes s' needle
  end.

Definition is_digit (c : ascii) : bool :=
  let n := nat_of_ascii c in (48 <=? n) && (n <=? 57).

Fixpoint all_digits (s : string) : bool :=
  match s with
  | EmptyString => true
  | String c s' => is_digit c && all_digits s'
  end.

(** [/^\d+$/.test(s)]: one or more decimal digits and nothing else. *)
Definition test_digits (s : string) : bool := truthy s && all_digits s.

(** The rest of [s] after its first [>], when there is one. *)
Fixpoint after_gt (s : string) : option string :=
  match s with
  | EmptyString => None
  | String c s' => if Ascii.eqb c ">" then Some s' else after_gt s'
  end.

(** [s] follows a [<]: does the pattern [<[^>]+>] match there?  It needs
    at least one character that is not [>] and then a [>]. *)
Definition tag_opens (s : string) : bool :=
  match s with
  | EmptyString => false
  | String c s' => negb (Ascii.eqb c ">") && bool_decide (is_Some (after_gt s'))
  end.

(** [s.replace(/<[^>]+>/g, '')], scanning from the left.  [inside] holds
    while the scan is within a matched tag, which ends at the next [>]. *)
Fixpoint strip_from (inside : bool) (s : string) : string :=
  match s with
  | EmptyString => EmptyString
  | String c s' =>
      if inside then
        (if Ascii.eqb c ">" then strip_from false s' else strip_from true s')
      else if Ascii.eqb c "<" && tag_opens s' then strip_from true s'
      else String c (strip_from false s')
  end.

Definition stripTags (s : string) : string := strip_from false s.

(** [a > b] on strings: lexicographic on code units. *)
Definition gt (a b : string) : bool :=
  match String.compare a b with Gt => true | _ => false end.

(** [`${n}`] for a non-negative integer. *)
Definition decimal (n : nat) : string :=
  NilEmpty.string_of_uint (Nat.to_uint n).

Global Arguments decimal : simpl never.

(** [s.lastIndexOf(c)], when [c] occurs. *)
Fixpoint lastIndexOf (c : ascii) (s : string) : option nat :=
  match s with
  | EmptyString => None
  | String d s' =>
      match lastIndexOf c s' with
      | Some i => Some (S i)
      | None => if Ascii.eqb d c then Some 0 else None
      end
  end.

(** [s.slice(0, n)]. *)
Definition slice0 (n : nat) (s : string) : string := String.substring 0 n s.

(** [parts.pop()] on the result of a [split], which is never empty. *)
Definition pop (parts : list string) : string := List.last parts EmptyString.

(** [parseInt(s, 10)] on a string of decimal digits.  The value is
    kept exact; a double rounds integers above 2^53, monotonically. *)
Fixpoint digits_value (acc : Z) (s : string) : Z :=
  match s with
  | EmptyString => acc
  | String c s' =>
      digits_value (10 * acc + (Z.of_nat (nat_of_ascii c) - 48))%Z s'
  end.

Definition parseInt (s : string) : Z := digits_value 0 s.

(** [Math.floor(ms / 1000)] *)
Definition floor_seconds (ms : Z) : Z := (ms / 1000)%Z.

(** [map.set(k, v)] on a [Map] with string keys: entries stay in the
    order of their first insertion. *)
Fixpoint map_set {V} (k : string) (v : V) (m : list (string * V))
  : list (string * V) :=
  match m with
  | [] => [(k, v)]
  | (k', v') :: rest =>
      if String.eqb k k' then (k, v) :: rest
      else (k', v') :: map_set k v rest
  end.

(** [[...new Set(xs)]]: the distinct elements, in the order of their
    first occurrence. *)
Fixpoint unique_from (seen xs : list string) : list string :=
  match xs with
  | [] => []
  | x :: rest =>
      if existsb (String.eqb x) seen then unique_from seen rest
      else x :: unique_from (x :: seen) rest
  end.

Definition unique (xs : list string) : list string := unique_from [] xs.

(** [(ms / 1000).toFixed(6)] for a clock reading in milliseconds, from
    0 and below 2^33 seconds, where the quotient is a double that is
    exact to the microsecond: the seconds, a point, the milliseconds on
    three digits and three zeros. *)
Definition seconds_toFixed6 (ms : Z) : string :=
  let millis := Z.to_nat (ms mod 1000) in
  NilEmpty.string_of_uint (N.to_uint (Z.to_N (ms / 1000))) +:+ "." +:+
  (if (millis <? 10)%nat then "00" else if (millis <? 100)%nat then "0" else "")
  +:+ decimal millis +:+ "000".

(** The double-quote character, for messages that contain it. *)
Definition quote : string := String "034" EmptyString.

End JS.

(** ** [lib/vtt-parser.ts] *)

Module Vtt.

(** The predicate of the first [filter]. *)
Definition keepLine (line : string) : bool :=
  let trimmed := JS.trim line in
  JS.truthy trimmed
  && negb (JS.startsWith trimmed "WEBVTT")
  && negb (JS.includes trimmed "-->")
  && negb (JS.test_digits trimmed).

Definition parseVttToText (vttContent : string) : string :=
  JS.join " "
    (List.filter JS.truthy
       (List.map (fun line => JS.trim (JS.stripTags line))
          (List.filter keepLine (JS.split "010" vttContent)))).

(** The payload of the scenario:
    [WEBVTT\n\n1\n00:00:00.000 --> 00:00:02.000\nHello <b>world</b>\n]. *)
Definition sample : string :=
  "WEBVTT" +:+ String "010" (String "010" ("1" +:+ String "010"
    ("00:00:00.000 --> 00:00:02.000" +:+ String "010"
       ("Hello <b>world</b>" +:+ String "010" "")))).

End Vtt.

(** ** The transcript as the specification words it

    Modelled from the spec: the payload is split into lines; the header
    line, the cue-timing lines, which contain an arrow, and the lines
    that are pure sequence numbers are dropped; the angle-bracket tags
    are stripped from the remaining lines; the lines that are empty by
    then are discarded; the survivors are joined with a single space.

    The definitions of this module use none of the [JS] primitives that
    [parseVttToText] is built from. *)

Module VttSpec.

(** A line ends at a line feed; [current] holds the characters of the
    line that is being read, the last one first. *)
Fixpoint lines_from (current rest : list ascii) : list string :=
  match rest with
  | [] => [string_of_list_ascii (rev current)]
  | c :: rest' =>
      if Ascii.eqb c "010"
      then string_of_list_ascii (rev current) :: lines_from [] rest'
      else lines_from (c :: current) rest'
  end.

Definition lines (payload : string) : list string :=
  lines_from [] (list_ascii_of_string payload).

(** The header line opens with the magic word. *)
Definition startsWebvtt (line : string) : bool :=
  String.eqb (String.substring 0 6 line) "WEBVTT".

(** The arrow [-->] of a cue timing. *)
Definition arrowHere (line : string) : bool :=
  match line with
  | String c1 (String c2 (String c3 _)) =>
      Ascii.eqb c1 "-" && Ascii.eqb c2 "-" && Ascii.eqb c3 ">"
  | _ => false
  end.

Fixpoint hasArrow (line : string) : bool :=
  arrowHere line
  || match line with
     | EmptyString => false
     | String _ rest => hasArrow rest
     end.

(** A sequence number: decimal digits, at least one, and nothing
    else. *)
Definition digit (c : ascii) : bool :=
  existsb (Ascii.eqb c) (list_ascii_of_string "0123456789").

Definition isNumber (line : string) : bool :=
  negb (String.eqb line "")
  && forallb digit (list_ascii_of_string line).

(** A tag: [<], one or more characters other than [>], and [>].
    [afterClose s] is what follows the first [>] of [s]. *)
Fixpoint afterClose (s : string) : option string :=
  match s with
  | EmptyString => None
  | String c rest => if Ascii.eqb c ">" then Some rest else afterClose rest
  end.

(** The line without its tags, read from the left; [fuel] bounds the
    number of characters and tags passed. *)
Fixpoint untag_fuel (fuel : nat) (s : string) : string :=
  match fuel with
  | O => s
  | S fuel' =>
      match s with
      | EmptyString => EmptyString
      | String c rest =>
          if Ascii.eqb c "<" then
            match rest with
            | EmptyString => String c EmptyString
            | String d inner =>
                if Ascii.eqb d ">" then String c (untag_fuel fuel' rest)
                else
                  match afterClose inner with
                  | Some after => untag_fuel fuel' after
                  | None => String c (untag_fuel fuel' rest)
                  end
            end
          else String c (untag_fuel fuel' rest)
      end
  end.

Definition untag (line : string) : string :=
  untag_fuel (String.length line) line.

(** The pieces with one space between two of them. *)
Fixpoint spaced (parts : list string) : string :=
  match parts with
  | [] => EmptyString
  | [part] => part
  | part :: rest => part +:+ " " +:+ spaced rest
  end.

Definition nonempty (line : string) : bool := negb (String.eqb line "").

(** The lines that are not dropped; [first] holds at the first line of
    the payload, the only place of the header line. *)
Fixpoint survivors (first : bool) (ls : list string) : list string :=
  match ls with
  | [] => []
  | line :: rest =>
      if (first && startsWebvtt line) || hasArrow line || isNumber line
      then survivors false rest
      else line :: survivors false rest
  end.

Definition transcript (payload : string) : string :=
  spaced (List.filter nonempty
            (List.map untag (survivors true (lines payload)))).

(** *** The description amended

    The lines are taken without the white space around them, for the
    tests and again after the tags are stripped, and every line that
    opens with the magic word is dropped, wherever it stands. *)

Definition white (c : ascii) : bool :=
  existsb (Nat.eqb (nat_of_ascii c)) [9; 10; 11; 12; 13; 32; 160].

Fixpoint dropWhite (l : list ascii) : list ascii :=
  match l with
  | [] => []
  | c :: rest => if white c then dropWhite rest else l
  end.

Definition strip (line : string) : string :=
  string_of_list_ascii
    (rev (dropWhite (rev (dropWhite (list_ascii_of_string line))))).

Definition kept (line : string) : bool :=
  let bare := strip line in
  nonempty bare && negb (startsWebvtt bare) && negb (hasArrow bare)
  && negb (isNumber bare).

Definition flattened (payload : string) : string :=
  spaced (List.filter nonempty
            (List.map (fun line => strip (untag line))
               (List.filter kept (lines payload)))).

(** A payload on which the two descriptions cannot part: no line has
    white space around it, also once its tags are stripped, and no line
    after the first opens with the magic word. *)
Definition clean (payload : string) : Prop :=
  Forall (fun line => strip line = line /\ strip (untag line) = untag line)
    (lines payload)
  /\ Forall (fun line => startsWebvtt line = false) (tail (lines payload)).

(** A caption that opens with the magic word, and a sequence number
    with white space around it. *)
Definition aboutWebvtt : string :=
  "WEBVTT" +:+ String "010" (String "010" ("1" +:+ String "010"
    ("00:00:00.000 --> 00:00:02.000" +:+ String "010"
       ("WEBVTT is a format" +:+ String "010" "")))).

Definition padded : string :=
  "WEBVTT" +:+ String "010" (String "010" (" 1 " +:+ String "010"
    ("00:00:00.000 --> 00:00:02.000" +:+ String "010"
       ("Hello" +:+ String "010" "")))).

End VttSpec.

(** ** The data model ([types/index.ts], as the commands use it) *)

Module Slack.

Record SlackFile := {
  file_id : string;
  file_name : option string;
  filetype : option string;
  mode : option string;
  url_private : option string;
  url_private_download : option string;
  transcription_status : option string;
  vtt : option string
}.

(** A message; [thread_replies] and [transcript] are only ever set by
    the enrichment passes. *)
#[warnings="-register-all"]
Inductive SlackMessage : Type := mkMessage {
  ts : string;
  thread_ts : option string;
  user : option string;
  text : string;
  reply_count : option Z;
  files : option (list SlackFile);
  transcript : option string;
  thread_replies : option (list SlackMessage)
}.

Record SlackUnreadChannel := {
  ch_id : string;
  ch_name : string;
  unread_count : Z;
  mention_count : Z;
  is_muted : bool;
  is_im : bool;
  is_mpim : bool;
  is_private : bool
}.

Record SlackUser := {
  user_id : string;
  user_name : option string;
  real_name : option string
}.

Record Draft := {
  draft_id : string;
  draft_channel : option string;
  draft_text : string;
  is_deleted : bool;
  is_sent : bool
}.

(** [msg.transcript = t] and [msg.thread_replies = rs]: assignments to
    one field of a message object. *)
Definition set_transcript (t : string) (m : SlackMessage) : SlackMessage :=
  mkMessage (ts m) (thread_ts m) (user m) (text m) (reply_count m)
    (files m) (Some t) (thread_replies m).

Definition set_thread_replies (rs : list SlackMessage) (m : SlackMessage)
  : SlackMessage :=
  mkMessage (ts m) (thread_ts m) (user m) (text m) (reply_count m)
    (files m) (transcript m) (Some rs).

(** An optional string used as a condition or on the left of [||]:
    [undefined] and the empty string are both falsy. *)
Definition present (o : option string) : option string :=
  match o with
  | Some s => if JS.truthy s then Some s else None
  | None => None
  end.

(** [a || b] on optional strings. *)
Definition or_opt (a b : option string) : option string :=
  match present a with Some s => Some s | None => b end.

End Slack.

(** ** Effects of a command action *)

Module Effects.
Import Slack.

(** What a promise of the client settles to. *)
Inductive reply (A : Type) : Type :=
| Resolved (a : A)
| Rejected (msg : string).
Arguments Resolved {A} a.
Arguments Rejected {A} msg.

(** The operations of the remote client, with their arguments. *)
Inductive Request : Type :=
| OpenConversation (user : string)
| PostMessage (channel text : string) (thread : option string)
| ScheduleMessage (channel text : string) (post_at : Z) (thread : option string)
| DeleteScheduledMessage (channel id : string)
| GetUserCounts
| GetConversationInfo (channel : string)
| GetConversationHistory (channel : string) (limit : option Z)
    (oldest latest : option string)
| GetConversationReplies (channel ts : string) (limit : option Z)
    (oldest latest : option string)
| GetUserInfo (user : string)
| GetUsersInfo (users : list string)
| MarkConversation (channel ts : string)
| FetchFileContent (url : string)
| FetchFileBinary (url : string)
| ListFiles (channel : string) (types : option string) (count : Z)
| ListDrafts (all : bool)
| CreateDraft (channel text : string)
| DeleteDraft (id : string).

(** [spinner.start(t)], [spinner.text = t], [spinner.succeed(t)], ... *)
Inductive SpinnerOp := Start | Text | Succeed | Fail | Warn | Stop.

(** What an action makes observable, in the order it happens.
    [Refused] follows the operation that the remote rejected, and
    [FileWritten] marks a file written to the disk. *)
Inductive Event : Type :=
| Authenticated (workspace : option string)
| Called (rq : Request)
| Refused (msg : string)
| FileWritten (path : string)
| Spinner (op : SpinnerOp) (text : string)
| PrintSuccess (msg : string)
| PrintError (msg : string)
| PrintInfo (msg : string)
| PrintWarning (msg : string)
| ConsoleLog (line : string)
| ConsoleError (line : string)
| ShowMessage (channel : string) (m : SlackMessage)
| ShowUnreadSummary (channels : list SlackUnreadChannel)
| ShowHistory (json : bool) (channel : string) (ms : list SlackMessage).

(** How a computation ends: with a value, with an exception that a
    [catch] can handle, by [process.exit], or not at all. *)
Inductive outcome (A : Type) : Type :=
| Ok (a : A)
| Thrown (msg : string)
| Exited (code : Z)
| Diverged.
Arguments Ok {A} a.
Arguments Thrown {A} msg.
Arguments Exited {A} code.
Arguments Diverged {A}.

Section Monad.
Context {W : Type}.

(** The remote service and the clock live in [world]; the local file
    system is a map from the paths of regular files to their
    contents and a set of directories. *)
Record Machine := {
  world : W;
  disk : gmap string string;
  dirs : gset string
}.

Record Run (A : Type) := {
  result : outcome A;
  final : Machine;
  events : list Event
}.
Global Arguments result {A} _.
Global Arguments final {A} _.
Global Arguments events {A} _.
Global Arguments Build_Run {A} _ _ _.

Definition M (A : Type) : Type := Machine -> Run A.

Definition ret {A} (a : A) : M A :=
  fun s => Build_Run (Ok a) s [].

Definition bind {A B} (m : M A) (f : A -> M B) : M B :=
  fun s =>
    match m s with
    | Build_Run (Ok a) s1 es1 =>
        match f a s1 with
        | Build_Run o s2 es2 => Build_Run o s2 (es1 ++ es2)
        end
    | Build_Run (Thrown e) s1 es1 => Build_Run (Thrown e) s1 es1
    | Build_Run (Exited c) s1 es1 => Build_Run (Exited c) s1 es1
    | Build_Run Diverged s1 es1 => Build_Run Diverged s1 es1
    end.

Definition throw {A} (msg : string) : M A :=
  fun s => Build_Run (Thrown msg) s [].

(** [process.exit(code)]: no handler runs after it. *)
Definition exit {A} (code : Z) : M A :=
  fun s => Build_Run (Exited code) s [].

Definition diverge {A} : M A :=
  fun s => Build_Run Diverged s [].

(** [try { m } catch (err) { h err.message }] *)
Definition try_catch {A} (m : M A) (h : string -> M A) : M A :=
  fun s =>
    match m s with
    | Build_Run (Thrown e) s1 es1 =>
        match h e s1 with
        | Build_Run o s2 es2 => Build_Run o s2 (es1 ++ es2)
        end
    | r => r
    end.

Definition emit (e : Event) : M unit :=
  fun s => Build_Run (Ok tt) s [e].

(** An asynchronous operation: it is observed as [e], the world
    moves on, and a rejection surfaces as an exception. *)
Definition perform {A} (e : Event) (op : W -> reply A * W) : M A :=
  fun s =>
    match op (world s) with
    | (Resolved a, w') =>
        Build_Run (Ok a) {| world := w'; disk := disk s; dirs := dirs s |}
          [e]
    | (Rejected msg, w') =>
        Build_Run (Thrown msg)
          {| world := w'; disk := disk s; dirs := dirs s |}
          [e; Refused msg]
    end.

(** [await client.op(...)] *)
Definition await {A} (rq : Request) (op : W -> reply A * W) : M A :=
  perform (Called rq) op.

(** Reading the world without changing it ([Date.now()]). *)
Definition observe {A} (f : W -> A) : M A :=
  fun s => Build_Run (Ok (f (world s))) s [].

(** A file or a directory is at [path]. *)
Definition occupied (s : Machine) (path : string) : bool :=
  bool_decide (is_Some (disk s !! path)) || bool_decide (path ∈ dirs s).

(** The paths at which there is a file or a directory. *)
Definition places (s : Machine) : gset string := dom (disk s) ∪ dirs s.

Definition existsSync (path : string) : M bool :=
  fun s => Build_Run (Ok (occupied s path)) s [].

(** [mkdirSync(path, { recursive: true })] *)
Definition mkdirSync (path : string) : M unit :=
  fun s =>
    Build_Run (Ok tt)
      {| world := world s; disk := disk s; dirs := {[path]} ∪ dirs s |} [].

(** [for (const x of xs) { ... }] with loop-carried variables [b]. *)
Fixpoint foldM {A B} (body : B -> A -> M B) (xs : list A) (b : B) : M B :=
  match xs with
  | [] => ret b
  | x :: rest => bind (body b x) (fun b' => foldM body rest b')
  end.

(** A loop that replaces each element by what its body returns: the
    objects of an array mutated in place, one after the other. *)
Fixpoint mapM {A B} (body : A -> M B) (xs : list A) : M (list B) :=
  match xs with
  | [] => ret []
  | x :: rest =>
      bind (body x) (fun y =>
      bind (mapM body rest) (fun ys => ret (y :: ys)))
  end.

(** A loop that both carries variables and updates the elements. *)
Fixpoint mapAccumM {A B S} (body : S -> A -> M (S * B)) (xs : list A)
    (st : S) : M (S * list B) :=
  match xs with
  | [] => ret (st, [])
  | x :: rest =>
      bind (body st x) (fun r =>
      bind (mapAccumM body rest r.1) (fun rs =>
      ret (rs.1, r.2 :: rs.2)))
  end.

(** A computation that ends with a value, whatever the remote does. *)
Definition settles {A} (m : M A) : Prop :=
  forall s, exists a, result (m s) = Ok a.

(** A computation that a [try] can contain: it ends with a value or
    with an exception. *)
Definition catchable {A} (m : M A) : Prop :=
  forall s, match result (m s) with
            | Ok _ | Thrown _ => True
            | Exited _ | Diverged => False
            end.

(** The status the process ends with: the argument of
    [process.exit], 0 after an action that returns, and 1 for an
    exception nobody caught. *)
Definition exit_status {A} (o : outcome A) : option Z :=
  match o with
  | Ok _ => Some 0%Z
  | Exited c => Some c
  | Thrown _ => Some 1%Z
  | Diverged => None
  end.

End Monad.
Global Arguments Machine W : clear implicits.
Global Arguments Run W A : clear implicits.
Global Arguments M W A : clear implicits.

Declare Scope action_scope.
Delimit Scope action_scope with action.
Notation "x <- m ;; k" := (bind m (fun x => k))
  (at level 100, m at next level, right associativity) : action_scope.
Notation "m ;; k" := (bind m (fun _ => k))
  (at level 100, right associativity) : action_scope.

(** *** Reading the trace of a run *)

(** The remote operations issued, in order. *)
Definition calls (es : list Event) : list Request :=
  omap (fun e => match e with Called rq => Some rq | _ => None end) es.

(** The mark-read calls issued: conversation and timestamp. *)
Definition marks (es : list Event) : list (string * string) :=
  omap (fun e =>
          match e with
          | Called (MarkConversation c t) => Some (c, t)
          | _ => None
          end) es.

(** The messages printed for one conversation. *)
Definition shownIn (channel : string) (es : list Event)
  : list SlackMessage :=
  omap (fun e =>
          match e with
          | ShowMessage c m => if String.eqb c channel then Some m else None
          | _ => None
          end) es.

(** The threads whose replies were fetched: conversation and parent. *)
Definition repliesFetched (es : list Event) : list (string * string) :=
  omap (fun e =>
          match e with
          | Called (GetConversationReplies c t _ _ _) => Some (c, t)
          | _ => None
          end) es.

(** The rejections of the remote. *)
Definition refusals (es : list Event) : list string :=
  omap (fun e => match e with Refused msg => Some msg | _ => None end) es.

(** The paths of the files written. *)
Definition written (es : list Event) : list string :=
  omap (fun e => match e with FileWritten p => Some p | _ => None end) es.

(** The lines written to the error stream. *)
Definition errorLines (es : list Event) : list string :=
  omap (fun e =>
          match e with
          | ConsoleError l => Some l
          | PrintError l => Some l
          | _ => None
          end) es.

(** The failures that a spinner announces. *)
Definition failures (es : list Event) : list string :=
  omap (fun e => match e with Spinner Fail t => Some t | _ => None end) es.

(** What reaches the terminal: the trace without the requests, the
    replies of the remote and the writes to the disk. *)
Definition onScreen (e : Event) : bool :=
  match e with
  | Authenticated _ | Called _ | Refused _ | FileWritten _ => false
  | _ => true
  end.

Definition screen (es : list Event) : list Event := List.filter onScreen es.


(** Nothing shown and nothing marked. *)
Definition quiet (es : list Event) : Prop :=
  marks es = [] /\ forall c, shownIn c es = [].

Global Arguments calls : simpl never.
Global Arguments marks : simpl never.
Global Arguments shownIn : simpl never.
Global Arguments repliesFetched : simpl never.
Global Arguments refusals : simpl never.
Global Arguments written : simpl never.
Global Arguments errorLines : simpl never.
Global Arguments failures : simpl never.
Global Arguments screen : simpl never.

(** The remote client ([lib/slack-client.ts]) and the host functions the
    actions call.  Each operation takes the world to its reply and the
    next world. *)
Record SlackClient (W : Type) := {
  getAuthenticatedClient : option string -> W -> reply unit * W;
  openConversation : string -> W -> reply string * W;
  postMessage : string -> string -> option string -> W -> reply string * W;
  scheduleMessage :
    string -> string -> Z -> option string -> W -> reply string * W;
  deleteScheduledMessage : string -> string -> W -> reply unit * W;
  getUserCounts : W -> reply (list SlackUnreadChannel) * W;
  getConversationInfo : string -> W -> reply (option string) * W;
  getConversationHistory :
    string -> option Z -> option string -> option string ->
    W -> reply (list SlackMessage) * W;
  getConversationReplies :
    string -> string -> option Z -> option string -> option string ->
    W -> reply (list SlackMessage) * W;
  getUserInfo : string -> W -> reply (option SlackUser) * W;
  getUsersInfo : list string -> W -> reply (list SlackUser) * W;
  markConversation : string -> string -> W -> reply unit * W;
  fetchFileContent : string -> W -> reply string * W;
  fetchFileBinary : string -> W -> reply string * W;
  listFiles :
    string -> option string -> Z -> W -> reply (list SlackFile) * W;
  listDrafts : bool -> W -> reply (list Draft) * W;
  createDraft : string -> string -> W -> reply (option string) * W;
  deleteDraft : string -> W -> reply unit * W
}.

(** [path.join], [new Date(s).getTime()] ([None] for an invalid date)
    and [Date.now()], both in milliseconds; and the file system beyond
    the paths that the model keeps: [write_error w path] is the error
    with which a write at [path] fails in the world [w] (a directory
    that is missing on the way, a permission, a full disk), if it
    does, and [write_debris w path data] is what the failed write of
    [data] leaves at [path]: nothing when the file could not be
    opened, the part that was written when it could. *)
Record Host (W : Type) := {
  path_join : string -> string -> string;
  date_parse : string -> option Z;
  date_now : W -> Z;
  write_error : W -> string -> option string;
  write_debris : W -> string -> string -> option string
}.

(** The disk after a write that failed. *)
Definition left_behind {W : Type} (host : Host W) (w : W)
    (path data : string) (files : gmap string string)
  : gmap string string :=
  match write_debris W host w path data with
  | Some part => <[path := part]> files
  | None => files
  end.

(** [writeFileSync(path, data)]: creates or replaces a regular file;
    it throws when the path is a directory and when the host refuses
    the write, which is not undone. *)
Definition writeFileSync {W : Type} (host : Host W) (path data : string)
  : M W unit :=
  fun s =>
    if bool_decide (path ∈ dirs s)
    then Build_Run (Thrown "EISDIR: illegal operation on a directory") s []
    else
      match write_error W host (world s) path with
      | Some e =>
          Build_Run (Thrown e)
            {| world := world s;
               disk := left_behind host (world s) path data (disk s);
               dirs := dirs s |} []
      | None =>
          Build_Run (Ok tt)
            {| world := world s; disk := <[path := data]> (disk s);
               dirs := dirs s |} [FileWritten path]
      end.

End Effects.

(** ** [commands/messages.ts] *)

Module Messages.
Import Slack Effects.
Local Open Scope action_scope.
Local Open Scope Z_scope.

(** The options object that the argument parser hands to the actions
    of this command group. *)
Record Options := {
  recipientId : string;
  message : string;
  time : string;
  threadTs : option string;
  workspace : option string;
  channel : string;
  messageId : string
}.

(** The calls that reach a recipient: through the direct conversation
    that was opened for a user id, straight to the channel otherwise. *)
Definition routed (recipient : string) (opened : reply string)
    (deliver : string -> Request) : list Request :=
  if JS.startsWith recipient "U" then
    match opened with
    | Resolved cid => [OpenConversation recipient; deliver cid]
    | Rejected _ => [OpenConversation recipient]
    end
  else [deliver recipient].

Section Actions.
Context {W : Type} (host : Host W) (client : SlackClient W).

Definition authenticate (ws : option string) : M W unit :=
  perform (Authenticated ws) (getAuthenticatedClient W client ws).

(** The recipient is a user id when it starts with [U]: a direct
    conversation is opened first. *)
Definition resolveRecipient (recipient : string) : M W string :=
  if JS.startsWith recipient "U" then
    emit (Spinner Text "Opening direct message...");;
    await (OpenConversation recipient)
      (openConversation W client recipient)
  else ret recipient.

Definition send (options : Options) : M W unit :=
  emit (Spinner Start "Sending message...");;
  try_catch
    (authenticate (workspace options);;
     channelId <- resolveRecipient (recipientId options);;
     emit (Spinner Text "Sending message...");;
     response_ts <-
       await (PostMessage channelId (message options) (threadTs options))
         (postMessage W client channelId (message options)
            (threadTs options));;
     emit (Spinner Succeed "Message sent successfully!");;
     emit (PrintSuccess ("Message timestamp: " +:+ response_ts)))
    (fun err =>
       emit (Spinner Fail "Failed to send message");;
       emit (PrintError err);;
       exit 1).

Definition invalid_date : string :=
  "Invalid date format. Use ISO 8601 (e.g., " +:+ JS.quote
  +:+ "2025-01-20T14:30:00" +:+ JS.quote +:+ ") or Unix timestamp.".

(** "Parse the time": a Unix timestamp or a date string; [None] for
    a string that is neither. *)
Definition postAtOf (time : string) : option Z :=
  if JS.test_digits time then Some (JS.parseInt time)
  else
    match date_parse W host time with
    | None => None
    | Some ms => Some (JS.floor_seconds ms)
    end.

Definition parseTime (time : string) : M W Z :=
  match postAtOf time with
  | Some postAt => ret postAt
  | None => throw invalid_date
  end.

Definition maxTime (now : Z) : Z := now + 120 * 24 * 60 * 60.

(** The two checks on [postAt], against the clock read once. *)
Definition validateTime (postAt : Z) : M W unit :=
  now_ms <- observe (date_now W host);;
  let now := JS.floor_seconds now_ms in
  if postAt <=? now then throw "Scheduled time must be in the future."
  else if postAt >? maxTime now then
    throw "Cannot schedule messages more than 120 days in the future."
  else ret tt.

Definition schedule (options : Options) : M W unit :=
  emit (Spinner Start "Scheduling message...");;
  try_catch
    (authenticate (workspace options);;
     postAt <- parseTime (time options);;
     validateTime postAt;;
     channelId <- resolveRecipient (recipientId options);;
     emit (Spinner Text "Scheduling message...");;
     scheduled_message_id <-
       await (ScheduleMessage channelId (message options) postAt
                (threadTs options))
         (scheduleMessage W client channelId (message options) postAt
            (threadTs options));;
     emit (Spinner Succeed "Message scheduled successfully!");;
     emit (PrintSuccess
             ("Scheduled message ID: " +:+ scheduled_message_id)))
    (fun err =>
       emit (Spinner Fail "Failed to schedule message");;
       emit (PrintError err);;
       exit 1).

Definition scheduled_delete (options : Options) : M W unit :=
  emit (Spinner Start "Deleting scheduled message...");;
  try_catch
    (authenticate (workspace options);;
     await (DeleteScheduledMessage (channel options) (messageId options))
       (deleteScheduledMessage W client (channel options)
          (messageId options));;
     emit (Spinner Succeed "Scheduled message deleted successfully!"))
    (fun err =>
       emit (Spinner Fail "Failed to delete scheduled message");;
       emit (PrintError err);;
       exit 1).

End Actions.
End Messages.

(** ** [commands/drafts.ts] *)

Module Drafts.
Import Slack Effects.
Local Open Scope action_scope.
Local Open Scope Z_scope.

Record Options := {
  all : bool;
  workspace : option string;
  channelId : string;
  text : string;
  draftId : string
}.

Section Actions.
Context {W : Type} (client : SlackClient W).

(** [text.substring(0, 60) + (text.length > 60 ? '...' : '')] *)
Definition preview (text : string) : string :=
  String.substring 0 60 text
  +:+ (if (60 <? String.length text)%nat then "..." else "").

Definition showDraft (all : bool) (index : nat) (draft : Draft)
  : M W unit :=
  emit (ConsoleLog (JS.decimal (index + 1) +:+ ". " +:+ draft_id draft));;
  emit (ConsoleLog ("   Channel: " +:+
          match present (draft_channel draft) with
          | Some c => c
          | None => "Unknown"
          end));;
  emit (ConsoleLog ("   Preview: " +:+ preview (draft_text draft)));;
  (if all then
     emit (ConsoleLog ("   Status: " +:+
             if is_deleted draft then "Deleted"
             else if is_sent draft then "Sent" else "Active"))
   else ret tt);;
  emit (ConsoleLog "").

(** What [list] prints once the drafts are there. *)
Definition showDrafts (all : bool) (drafts : list Draft) : M W unit :=
  if (length drafts =? 0)%nat then emit (PrintSuccess "No drafts found")
  else
    emit (ConsoleLog
            ("Drafts (" +:+ JS.decimal (length drafts) +:+ ")"));;
    foldM (fun index draft =>
             showDraft all index draft;;
             ret (S index))
      drafts 0%nat;;
    emit (PrintSuccess
            ("Found " +:+ JS.decimal (length drafts) +:+ " draft(s)")).

Definition list (options : Options) : M W unit :=
  emit (Spinner Start "Fetching drafts...");;
  try_catch
    (Messages.authenticate client (workspace options);;
     drafts <- await (ListDrafts (all options))
                 (listDrafts W client (all options));;
     emit (Spinner Stop "");;
     showDrafts (all options) drafts)
    (fun err =>
       emit (Spinner Stop "");;
       emit (PrintError ("Error: " +:+ err))).

Definition create (options : Options) : M W unit :=
  emit (Spinner Start "Creating draft...");;
  try_catch
    (Messages.authenticate client (workspace options);;
     draft <- await (CreateDraft (channelId options) (text options))
                (createDraft W client (channelId options) (text options));;
     emit (Spinner Stop "");;
     match draft with
     | Some id =>
         emit (PrintSuccess "Draft created successfully");;
         emit (ConsoleLog ("Draft ID: " +:+ id))
     | None => emit (PrintSuccess "Draft created")
     end)
    (fun err =>
       emit (Spinner Stop "");;
       emit (PrintError ("Error: " +:+ err))).

Definition delete (options : Options) : M W unit :=
  emit (Spinner Start "Deleting draft...");;
  try_catch
    (Messages.authenticate client (workspace options);;
     await (DeleteDraft (draftId options))
       (deleteDraft W client (draftId options));;
     emit (Spinner Stop "");;
     emit (PrintSuccess "Draft deleted successfully"))
    (fun err =>
       emit (Spinner Stop "");;
       emit (PrintError "Failed to delete draft");;
       emit (PrintError ("Error: " +:+ err))).

End Actions.

Global Arguments showDraft : simpl never.
Global Arguments showDrafts : simpl never.
End Drafts.

(** ** [commands/files.ts] *)

Module Files.
Import Slack Effects.
Local Open Scope action_scope.

(** [count] holds [parseInt(options.count)]. *)
Record Options := {
  url : string;
  output : string;
  channel : string;
  types : option string;
  count : Z;
  workspace : option string
}.

(** The three counters of the batch. *)
Record Counts := {
  downloadedCount : nat;
  failedCount : nat;
  skippedCount : nat
}.

(** ['.' + fileName.split('.').pop()], or nothing without a dot. *)
Definition ext (fileName : string) : string :=
  if JS.includes fileName "." then "." +:+ JS.pop (JS.split "." fileName)
  else "".

(** [fileName.slice(0, fileName.lastIndexOf('.'))], or the whole name
    without a dot. *)
Definition nameWithoutExt (fileName : string) : string :=
  if JS.includes fileName "." then
    match JS.lastIndexOf "." fileName with
    | Some i => JS.slice0 i fileName
    | None => JS.slice0 (String.length fileName - 1) fileName
    end
  else fileName.

(** [`${nameWithoutExt}_${counter}${ext}`] *)
Definition suffixed (fileName : string) (counter : nat) : string :=
  nameWithoutExt fileName +:+ "_" +:+ JS.decimal counter +:+ ext fileName.

(** [file.name || `${file.id}.${file.filetype || 'bin'}`] *)
Definition fileNameOf (file : SlackFile) : string :=
  match present (file_name file) with
  | Some n => n
  | None =>
      file_id file +:+ "." +:+
      match present (filetype file) with Some t => t | None => "bin" end
  end.

(** [file.url_private_download || file.url_private] *)
Definition downloadUrlOf (file : SlackFile) : option string :=
  or_opt (url_private_download file) (present (url_private file)).

Definition is_tombstone (file : SlackFile) : bool :=
  bool_decide (mode file = Some "tombstone").

(** The URL of a file that the batch tries to download: one with a
    usable URL that is not a tombstone. *)
Definition liveUrl (file : SlackFile) : option string :=
  match downloadUrlOf file with
  | Some url => if is_tombstone file then None else Some url
  | None => None
  end.

(** Counters added field by field. *)
Definition plus (counts delta : Counts) : Counts :=
  {| downloadedCount := downloadedCount counts + downloadedCount delta;
     failedCount := failedCount counts + failedCount delta;
     skippedCount := skippedCount counts + skippedCount delta |}.

Definition zero : Counts :=
  {| downloadedCount := 0; failedCount := 0; skippedCount := 0 |}.

(** [skippedCount++], [downloadedCount++] and [failedCount++]. *)
Definition skip (counts : Counts) : Counts :=
  {| downloadedCount := downloadedCount counts;
     failedCount := failedCount counts;
     skippedCount := S (skippedCount counts) |}.

Definition succeed (counts : Counts) : Counts :=
  {| downloadedCount := S (downloadedCount counts);
     failedCount := failedCount counts;
     skippedCount := skippedCount counts |}.

Definition fail (counts : Counts) : Counts :=
  {| downloadedCount := downloadedCount counts;
     failedCount := S (failedCount counts);
     skippedCount := skippedCount counts |}.

(** What a run adds to the counters it starts from, when it ends. *)
Definition added (delta : option Counts) (counts : Counts)
  : outcome Counts :=
  match delta with
  | Some d => Ok (plus counts d)
  | None => Diverged
  end.

Section Actions.
Context {W : Type} (host : Host W) (client : SlackClient W).

Definition read (options : Options) : M W unit :=
  emit (Spinner Start "Fetching file content...");;
  try_catch
    (Messages.authenticate client (workspace options);;
     content <- await (FetchFileContent (url options))
                  (fetchFileContent W client (url options));;
     emit (Spinner Succeed "File content retrieved!");;
     emit (ConsoleLog (String "010" content)))
    (fun err =>
       emit (Spinner Fail "Failed to fetch file");;
       emit (PrintError err);;
       exit 1).

Definition download (options : Options) : M W unit :=
  emit (Spinner Start "Downloading file...");;
  try_catch
    (Messages.authenticate client (workspace options);;
     buffer <- await (FetchFileBinary (url options))
                 (fetchFileBinary W client (url options));;
     writeFileSync host (output options) buffer;;
     emit (Spinner Succeed "File downloaded successfully!");;
     emit (PrintSuccess ("Saved to: " +:+ output options));;
     emit (PrintInfo ("Size: " +:+ JS.decimal (String.length buffer)
                      +:+ " bytes")))
    (fun err =>
       emit (Spinner Fail "Failed to download file");;
       emit (PrintError err);;
       exit 1).

(** The [while (existsSync(finalPath))] loop.  [fuel] bounds the
    number of tests of the condition; the loop that has not found a
    free path by then is taken not to end. *)
Fixpoint resolveFinalPath (fuel : nat) (outputDir fileName : string)
    (finalPath : string) (counter : nat) : M W string :=
  match fuel with
  | O => diverge
  | S fuel' =>
      taken <- existsSync finalPath;;
      if taken : bool then
        resolveFinalPath fuel' outputDir fileName
          (path_join W host outputDir (suffixed fileName counter))
          (S counter)
      else ret finalPath
  end.

(** The path tried at the [k]-th test of the loop condition: the
    plain name first, then the name with the counter. *)
Definition candidate (outputDir fileName : string) (k : nat) : string :=
  path_join W host outputDir
    match k with
    | O => fileName
    | S _ => suffixed fileName k
    end.



(** One iteration of [for (const file of fileList)]. *)
Definition downloadOne (fuel : nat) (outputDir : string)
    (counts : Counts) (file : SlackFile) : M W Counts :=
  match downloadUrlOf file with
  | None =>
      emit (PrintWarning
              ("Skipping " +:+
               match or_opt (file_name file) (Some (file_id file)) with
               | Some n => n
               | None => ""
               end +:+ ": No download URL available"));;
      ret (skip counts)
  | Some downloadUrl =>
      if is_tombstone file then ret (skip counts)
      else
        let fileName := fileNameOf file in
        let outputPath := path_join W host outputDir fileName in
        finalPath <- resolveFinalPath fuel outputDir fileName outputPath 1;;
        emit (Spinner Start ("Downloading " +:+ fileName +:+ "..."));;
        try_catch
          (buffer <- await (FetchFileBinary downloadUrl)
                       (fetchFileBinary W client downloadUrl);;
           writeFileSync host finalPath buffer;;
           emit (Spinner Succeed ("Downloaded: " +:+ finalPath));;
           ret (succeed counts))
          (fun err =>
             emit (Spinner Fail ("Failed to download " +:+ fileName
                                 +:+ ": " +:+ err));;
             ret (fail counts))
  end.

(** The summary printed after the loop. *)
Definition report (outputDir : string) (counts : Counts) : M W unit :=
  emit (ConsoleLog "");;
  emit (PrintSuccess ("Downloaded " +:+ JS.decimal (downloadedCount counts)
                      +:+ " files to " +:+ outputDir));;
  (if (0 <? failedCount counts)%nat then
     emit (PrintWarning (JS.decimal (failedCount counts)
                         +:+ " files failed to download"))
   else ret tt);;
  (if (0 <? skippedCount counts)%nat then
     emit (PrintInfo (JS.decimal (skippedCount counts)
                      +:+ " files skipped (no URL or deleted)"))
   else ret tt).

(** The part of [download-all] whose failure ends the command: the
    client, the output directory and the list of files. *)
Definition listing (options : Options) : M W (list SlackFile) :=
  Messages.authenticate client (workspace options);;
  let outputDir := output options in
  there <- existsSync outputDir;;
  (if there : bool then ret tt else mkdirSync outputDir);;
  await (ListFiles (channel options) (types options) (count options))
    (listFiles W client (channel options) (types options)
       (count options)).

(** The loop over the files and the summary. *)
Definition deliver (fuel : nat) (outputDir : string)
    (fileList : list SlackFile) : M W unit :=
  if (length fileList =? 0)%nat then
    emit (Spinner Warn "No files found in this channel")
  else
    emit (Spinner Succeed ("Found " +:+ JS.decimal (length fileList)
                           +:+ " files to download"));;
    counts <- foldM (downloadOne fuel outputDir) fileList zero;;
    report outputDir counts.

Definition download_all (fuel : nat) (options : Options) : M W unit :=
  emit (Spinner Start "Fetching file list...");;
  try_catch
    (fileList <- listing options;;
     deliver fuel (output options) fileList)
    (fun err =>
       emit (Spinner Fail "Failed to download files");;
       emit (PrintError err);;
       exit 1).

End Actions.

Global Arguments resolveFinalPath : simpl never.
Global Arguments downloadOne : simpl never.
Global Arguments report : simpl never.
Global Arguments listing : simpl never.
Global Arguments deliver : simpl never.
End Files.

(** ** [commands/conversations.ts] *)

Module Conversations.
Import Slack Effects.
Local Open Scope action_scope.

(** [limit] holds [parseInt(options.limit)]. *)
Record Options := {
  channel : option string;
  show : bool;
  markRead : bool;
  includeMuted : bool;
  workspace : option string;
  threadTs : option string;
  excludeReplies : bool;
  limit : Z;
  oldestFirst : bool;
  oldest : option string;
  latest : option string;
  json : bool;
  includeTranscripts : bool;
  includeThreads : bool;
  ts_option : option string
}.

(** The variables that the loop over the unread conversations carries. *)
Record UnreadLoop := {
  users : gmap string SlackUser;
  totalMessagesShown : nat;
  latestTimestamps : list (string * string)
}.

(** [f.transcription?.status === 'complete' && f.vtt] *)
Definition hasTranscript (f : SlackFile) : bool :=
  bool_decide (transcription_status f = Some "complete")
  && bool_decide (is_Some (present (vtt f))).

(** [msg.files || []] *)
Definition filesOf (msg : SlackMessage) : list SlackFile :=
  match files msg with Some fs => fs | None => [] end.

Definition isVideo (msg : SlackMessage) : bool :=
  existsb hasTranscript (filesOf msg).



(** [(msg.reply_count ?? 0) > 0] *)
Definition isThreadParent (msg : SlackMessage) : bool :=
  match reply_count msg with Some n => (0 <? n)%Z | None => false end.

(** [messages.reduce((max, msg) => msg.ts > max ? msg.ts : max, '0')] *)
Definition latestOf (messages : list SlackMessage) : string :=
  fold_left (fun max msg => if JS.gt (ts msg) max then ts msg else max)
    messages "0".


(** A timestamp of the service starts with a decimal digit (seconds,
    a point, microseconds). *)
Definition wellFormedTs (t : string) : bool :=
  match t with
  | EmptyString => false
  | String c _ => JS.is_digit c
  end.

(** [infoResponse.channel?.last_read || '0'] *)
Definition lastReadOf (last_read : option string) : string :=
  match present last_read with Some t => t | None => "0" end.

(** The distinct truthy [user] fields, in order of first occurrence. *)
Definition userIdsOf (messages : list SlackMessage) : list string :=
  JS.unique (omap (fun m => present (user m)) messages).

(** [list.sort((a, b) => b.unread_count - a.unread_count)]: a stable
    sort, most unread first. *)
Fixpoint insertByUnread (ch : SlackUnreadChannel)
    (sorted : list SlackUnreadChannel) : list SlackUnreadChannel :=
  match sorted with
  | [] => [ch]
  | other :: rest =>
      if (unread_count ch <? unread_count other)%Z
      then other :: insertByUnread ch rest
      else ch :: sorted
  end.

Definition sortByUnread (chs : list SlackUnreadChannel)
  : list SlackUnreadChannel :=
  foldr insertByUnread [] chs.

(** The prefix of the header line of a conversation (the source prints
    an emoji for the first three kinds). *)
Definition channelPrefix (ch : SlackUnreadChannel) : string :=
  if is_im ch then "@" else if is_mpim ch then "@@"
  else if is_private ch then "*" else "#".

Section Actions.
Context {W : Type} (host : Host W) (client : SlackClient W).

(** *** Enrichment *)

(** The body of the loop over one message's files. *)
Definition transcriptOfFile (transcripts : list string) (file : SlackFile)
  : M W (list string) :=
  if hasTranscript file then
    match present (vtt file) with
    | Some ref =>
        try_catch
          (vttContent <- await (FetchFileContent ref)
                           (fetchFileContent W client ref);;
           let text := Vtt.parseVttToText vttContent in
           ret (if JS.truthy text then transcripts ++ [text]
                else transcripts))
          (fun _ =>
             emit (ConsoleError ("Failed to fetch transcript for file "
                                 +:+ file_id file));;
             ret transcripts)
    | None => ret transcripts
    end
  else ret transcripts.

(** The body of [for (const msg of videosToFetch)]. *)
Definition transcriptFor (msg : SlackMessage) : M W SlackMessage :=
  transcripts <- foldM transcriptOfFile (filesOf msg) [];;
  ret (if (0 <? length transcripts)%nat
       then set_transcript (JS.join (String "010" (String "010" "")) transcripts) msg
       else msg).

(** What the loop over [videosToFetch] does to one message of the
    array: nothing unless it is one of the videos. *)
Definition transcribe (msg : SlackMessage) : M W SlackMessage :=
  if isVideo msg then transcriptFor msg else ret msg.

(** The messages are objects of the caller's array, changed in place:
    the action returns the array as it is afterwards. *)
Definition fetchTranscriptsForMessages (messages : list SlackMessage)
  : M W (list SlackMessage) :=
  let videosToFetch := List.filter isVideo messages in
  if (length videosToFetch =? 0)%nat then ret messages
  else
    emit (Spinner Text ("Fetching transcripts for "
                        +:+ JS.decimal (length videosToFetch)
                        +:+ " video(s)..."));;
    mapM transcribe messages.

(** "Collect user IDs from replies": one reply of a thread. *)
Definition userOfReply (users : gmap string SlackUser)
    (reply : SlackMessage) : M W (gmap string SlackUser) :=
  match present (user reply) with
  | Some uid =>
      if bool_decide (is_Some (users !! uid)) then ret users
      else
        try_catch
          (found <- await (GetUserInfo uid) (getUserInfo W client uid);;
           ret (match found with
                | Some u => <[uid := u]> users
                | None => users
                end))
          (fun _ =>
             emit (ConsoleError ("Failed to fetch user " +:+ uid));;
             ret users)
  | None => ret users
  end.

(** The body of [for (const msg of threadParents)]. *)
Definition repliesFor (channelId : string) (users : gmap string SlackUser)
    (msg : SlackMessage) : M W (gmap string SlackUser * SlackMessage) :=
  try_catch
    (replies <- await (GetConversationReplies channelId (ts msg)
                         None None None)
                  (getConversationReplies W client channelId (ts msg)
                     None None None);;
     let threadReplies := tail replies in
     users' <- foldM userOfReply threadReplies users;;
     ret (users', set_thread_replies threadReplies msg))
    (fun _ =>
       emit (ConsoleError ("Failed to fetch thread replies for message "
                           +:+ ts msg));;
       ret (users, msg)).

(** What the loop over [threadParents] does to one message of the
    array: nothing unless it is the parent of a thread. *)
Definition expand (channelId : string) (users : gmap string SlackUser)
    (msg : SlackMessage) : M W (gmap string SlackUser * SlackMessage) :=
  if isThreadParent msg then repliesFor channelId users msg
  else ret (users, msg).

Definition fetchThreadRepliesForMessages (channelId : string)
    (messages : list SlackMessage) (users : gmap string SlackUser)
  : M W (gmap string SlackUser * list SlackMessage) :=
  let threadParents := List.filter isThreadParent messages in
  if (length threadParents =? 0)%nat then ret (users, messages)
  else
    emit (Spinner Text ("Fetching replies for "
                        +:+ JS.decimal (length threadParents)
                        +:+ " thread(s)..."));;
    mapAccumM (expand channelId) messages users.

(** *** [conversations read] *)

Definition fetchMessages (channelId : string) (options : Options)
  : M W (list SlackMessage) :=
  match present (threadTs options) with
  | Some thread =>
      emit (Spinner Text "Fetching thread replies...");;
      await (GetConversationReplies channelId thread
               (Some (limit options)) (oldest options) (latest options))
        (getConversationReplies W client channelId thread
           (Some (limit options)) (oldest options) (latest options))
  | None =>
      emit (Spinner Text "Fetching conversation history...");;
      messages <-
        await (GetConversationHistory channelId (Some (limit options))
                 (oldest options) (latest options))
          (getConversationHistory W client channelId
             (Some (limit options)) (oldest options) (latest options));;
      ret (if excludeReplies options then
             List.filter
               (fun msg =>
                  match present (thread_ts msg) with
                  | None => true
                  | Some t => String.eqb t (ts msg)
                  end)
               messages
           else messages)
  end.

Definition fetchUsers (messages : list SlackMessage)
  : M W (gmap string SlackUser) :=
  let userIds := userIdsOf messages in
  if (0 <? length userIds)%nat then
    emit (Spinner Text "Fetching user information...");;
    found <- await (GetUsersInfo userIds) (getUsersInfo W client userIds);;
    ret (fold_left (fun m u => <[user_id u := u]> m) found ∅)
  else ret ∅.

(** The part of [read] whose failure ends the command: the client,
    the messages and their authors. *)
Definition gather (channelId : string) (options : Options)
  : M W (list SlackMessage * gmap string SlackUser) :=
  Messages.authenticate client (workspace options);;
  fetched <- fetchMessages channelId options;;
  let messages := if oldestFirst options then rev fetched else fetched in
  users <- fetchUsers messages;;
  ret (messages, users).

(** The enrichment passes and the output. *)
Definition enrichAndShow (channelId : string) (options : Options)
    (gathered : list SlackMessage * gmap string SlackUser) : M W unit :=
  messages <- (if includeTranscripts options
               then fetchTranscriptsForMessages gathered.1
               else ret gathered.1);;
  enriched <- (if includeThreads options
               then fetchThreadRepliesForMessages channelId messages
                      gathered.2
               else ret (gathered.2, messages));;
  emit (Spinner Succeed ("Found " +:+ JS.decimal (length enriched.2)
                         +:+ " messages"));;
  emit (ShowHistory (json options) channelId enriched.2).

Definition read (channelId : string) (options : Options) : M W unit :=
  emit (Spinner Start "Fetching messages...");;
  try_catch
    (gathered <- gather channelId options;;
     enrichAndShow channelId options gathered)
    (fun err =>
       emit (Spinner Fail "Failed to fetch messages");;
       emit (PrintError err);;
       exit 1).

(** *** [conversations unread] *)

(** "Fetch user info": one id of the conversation's authors. *)
Definition lookupUser (users : gmap string SlackUser) (userId : string)
  : M W (gmap string SlackUser) :=
  match users !! userId ≫= (fun u => present (real_name u)) with
  | Some _ => ret users
  | None =>
      try_catch
        (found <- await (GetUserInfo userId) (getUserInfo W client userId);;
         ret (match found with
              | Some u => <[userId := u]> users
              | None => users
              end))
        (fun _ => ret users)
  end.

(** One iteration of [for (const channel of unreadChannels)]. *)
Definition unreadOf (st : UnreadLoop) (channel : SlackUnreadChannel)
  : M W UnreadLoop :=
  emit (Spinner Start ("Fetching unread messages from "
                       +:+ ch_name channel +:+ "..."));;
  last_read <- await (GetConversationInfo (ch_id channel))
                 (getConversationInfo W client (ch_id channel));;
  let lastRead := lastReadOf last_read in
  let limit := Z.min (unread_count channel + 5) 100 in
  history <-
    await (GetConversationHistory (ch_id channel) (Some limit)
             (Some lastRead) None)
      (getConversationHistory W client (ch_id channel) (Some limit)
         (Some lastRead) None);;
  let messages :=
    List.filter (fun msg => JS.gt (ts msg) lastRead) history in
  if (length messages =? 0)%nat then ret st
  else
    let latestTs := latestOf messages in
    let stamps := JS.map_set (ch_id channel) latestTs (latestTimestamps st) in
    let seen :=
      fold_left
        (fun us msg =>
           match present (user msg) with
           | Some uid =>
               <[uid := {| user_id := uid; user_name := None;
                           real_name := None |}]> us
           | None => us
           end)
        messages (users st) in
    users' <- foldM lookupUser (userIdsOf messages) seen;;
    emit (Spinner Stop "");;
    emit (ConsoleLog (String "010" (channelPrefix channel) +:+ " "
                      +:+ ch_name channel
                      +:+ " (" +:+ JS.decimal (length messages)
                      +:+ " unread)" +:+ String "010" ""));;
    foldM (fun _ msg => emit (ShowMessage (ch_id channel) msg))
      (rev messages) tt;;
    ret {| users := users';
           totalMessagesShown :=
             totalMessagesShown st + length messages;
           latestTimestamps := stamps |}.

(** One iteration of [for (const [channelId, latestTs] of
    latestTimestamps)]. *)
Definition markOne (_ : unit) (entry : string * string) : M W unit :=
  try_catch
    (await (MarkConversation entry.1 entry.2)
       (markConversation W client entry.1 entry.2))
    (fun _ => ret tt).

(** "Show actual unread messages" and "Mark as read if requested". *)
Definition showUnread (options : Options)
    (unreadChannels : list SlackUnreadChannel) : M W unit :=
  st <- foldM unreadOf unreadChannels
          {| users := ∅; totalMessagesShown := 0;
             latestTimestamps := [] |};;
  (if markRead options && (0 <? length (latestTimestamps st))%nat then
     emit (Spinner Start "Marking messages as read...");;
     foldM markOne (latestTimestamps st) tt;;
     emit (Spinner Succeed
             ("Marked " +:+ JS.decimal (length (latestTimestamps st))
              +:+ " conversation(s) as read"))
   else ret tt);;
  (if (totalMessagesShown st =? 0)%nat then
     emit (PrintSuccess "All caught up! No unread messages.")
   else ret tt).

(** What follows the selection of the conversations. *)
Definition reportUnread (options : Options)
    (selected : list SlackUnreadChannel) : M W unit :=
  let unreadChannels := sortByUnread selected in
  emit (Spinner Stop "");;
  if show options then showUnread options unreadChannels
  else
    emit (ShowUnreadSummary unreadChannels);;
    if (0 <? length unreadChannels)%nat then
      emit (ConsoleLog
              "Use --show to view the actual messages, or --mark-read to mark all as read.")
    else ret tt.

Definition unread (options : Options) : M W unit :=
  emit (Spinner Start "Fetching unread counts...");;
  try_catch
    (Messages.authenticate client (workspace options);;
     allChannels <- await GetUserCounts (getUserCounts W client);;
     let withUnread :=
       List.filter (fun ch => (0 <? unread_count ch)%Z) allChannels in
     let audible :=
       if includeMuted options then withUnread
       else List.filter (fun ch => negb (is_muted ch)) withUnread in
     match present (channel options) with
     | Some target =>
         let only :=
           List.filter (fun ch => String.eqb (ch_id ch) target) audible in
         if (length only =? 0)%nat then
           if existsb (fun ch => String.eqb (ch_id ch) target) allChannels
           then emit (Spinner Succeed "No unread messages in this channel")
           else
             emit (Spinner Fail "Channel not found in your conversations");;
             exit 1
         else reportUnread options only
     | None => reportUnread options audible
     end)
    (fun err =>
       emit (Spinner Fail "Failed to fetch unread messages");;
       emit (PrintError err);;
       exit 1).

(** *** [conversations mark-read] *)

Definition mark_read (channelId : string) (options : Options) : M W unit :=
  emit (Spinner Start "Marking conversation as read...");;
  try_catch
    (Messages.authenticate client (workspace options);;
     ts <- match present (ts_option options) with
           | Some t => ret t
           | None =>
               now_ms <- observe (date_now W host);;
               ret (JS.seconds_toFixed6 now_ms)
           end;;
     await (MarkConversation channelId ts)
       (markConversation W client channelId ts);;
     emit (Spinner Succeed "Conversation marked as read"))
    (fun err =>
       emit (Spinner Fail "Failed to mark conversation as read");;
       emit (PrintError err);;
       exit 1).



End Actions.

Global Arguments transcriptOfFile : simpl never.
Global Arguments transcriptFor : simpl never.
Global Arguments transcribe : simpl never.
Global Arguments userOfReply : simpl never.
Global Arguments repliesFor : simpl never.
Global Arguments expand : simpl never.
Global Arguments lookupUser : simpl never.
Global Arguments unreadOf : simpl never.
Global Arguments markOne : simpl never.
Global Arguments showUnread : simpl never.
Global Arguments gather : simpl never.
Global Arguments enrichAndShow : simpl never.
Global Arguments fetchTranscriptsForMessages : simpl never.
Global Arguments fetchThreadRepliesForMessages : simpl never.
Global Arguments reportUnread : simpl never.
End Conversations.

(** ** Concrete remotes for the examples *)

Module Scenario.
Import Slack Effects.
Local Open Scope Z_scope.

(** A remote without state in which every operation succeeds; a direct
    conversation with user [u] has the id [D-u]. *)
Definition remote : SlackClient unit := {|
  getAuthenticatedClient := fun _ w => (Resolved tt, w);
  openConversation := fun u w => (Resolved ("D-" +:+ u), w);
  postMessage := fun _ _ _ w => (Resolved "1000.000001", w);
  scheduleMessage := fun _ _ _ _ w => (Resolved "Q1", w);
  deleteScheduledMessage := fun _ _ w => (Resolved tt, w);
  getUserCounts := fun w => (Resolved [], w);
  getConversationInfo := fun _ w => (Resolved None, w);
  getConversationHistory := fun _ _ _ _ w => (Resolved [], w);
  getConversationReplies := fun _ _ _ _ _ w => (Resolved [], w);
  getUserInfo := fun _ w => (Resolved None, w);
  getUsersInfo := fun _ w => (Resolved [], w);
  markConversation := fun _ _ w => (Resolved tt, w);
  fetchFileContent := fun _ w => (Resolved "", w);
  fetchFileBinary := fun _ w => (Resolved "data", w);
  listFiles := fun _ _ _ w => (Resolved [], w);
  listDrafts := fun _ w => (Resolved [], w);
  createDraft := fun _ _ w => (Resolved None, w);
  deleteDraft := fun _ w => (Resolved tt, w)
|}.

(** Paths are joined with a slash, no date string parses, the clock
    stands at 1 000 000 seconds and every write is taken. *)
Definition host : Host unit := {|
  path_join := fun dir name => dir +:+ "/" +:+ name;
  date_parse := fun _ => None;
  date_now := fun _ => 1000000000;
  write_error := fun _ _ => None;
  write_debris := fun _ _ _ => None
|}.

(** An empty disk. *)
Definition start : Machine unit :=
  {| world := tt; disk := ∅; dirs := ∅ |}.

Definition toUser (time : string) : Messages.Options := {|
  Messages.recipientId := "U42";
  Messages.message := "hello";
  Messages.time := time;
  Messages.threadTs := None;
  Messages.workspace := None;
  Messages.channel := "";
  Messages.messageId := ""
|}.

Definition toChannel (time : string) : Messages.Options := {|
  Messages.recipientId := "C7";
  Messages.message := "hello";
  Messages.time := time;
  Messages.threadTs := None;
  Messages.workspace := None;
  Messages.channel := "";
  Messages.messageId := ""
|}.

(** The scenario of the thread expansion: three messages, the first
    with two replies. *)
Definition plain (ts : string) (count : option Z) : SlackMessage :=
  mkMessage ts None None "" count None None None.

Definition thread100 : list SlackMessage :=
  [plain "100.000001" (Some 2); plain "150.000001" None;
   plain "160.000001" None].

Definition threaded : SlackClient unit := {|
  getAuthenticatedClient := getAuthenticatedClient unit remote;
  openConversation := openConversation unit remote;
  postMessage := postMessage unit remote;
  scheduleMessage := scheduleMessage unit remote;
  deleteScheduledMessage := deleteScheduledMessage unit remote;
  getUserCounts := getUserCounts unit remote;
  getConversationInfo := getConversationInfo unit remote;
  getConversationHistory := getConversationHistory unit remote;
  getConversationReplies := fun _ ts _ _ _ w =>
    (if String.eqb ts "100.000001" then Resolved thread100
     else Rejected "thread_not_found", w);
  getUserInfo := getUserInfo unit remote;
  getUsersInfo := getUsersInfo unit remote;
  markConversation := markConversation unit remote;
  fetchFileContent := fetchFileContent unit remote;
  fetchFileBinary := fetchFileBinary unit remote;
  listFiles := listFiles unit remote;
  listDrafts := listDrafts unit remote;
  createDraft := createDraft unit remote;
  deleteDraft := deleteDraft unit remote
|}.

Definition batch : list SlackMessage :=
  [plain "100.000001" (Some 2); plain "200.000001" None;
   plain "300.000001" None].

(** Two conversations with unread messages.  [A] was read up to
    [100.000000] and its history comes back with the message read last
    in it; [B] has no watermark. *)
Definition unreadA : SlackUnreadChannel :=
  {| ch_id := "A"; ch_name := "general"; unread_count := 5;
     mention_count := 0; is_muted := false; is_im := false;
     is_mpim := false; is_private := false |}.

Definition unreadB : SlackUnreadChannel :=
  {| ch_id := "B"; ch_name := "random"; unread_count := 2;
     mention_count := 0; is_muted := false; is_im := false;
     is_mpim := false; is_private := false |}.

Definition historyA : list SlackMessage :=
  [plain "105.000000" None; plain "101.000000" None;
   plain "100.000000" None].

Definition historyB : list SlackMessage := [plain "7.5" None].

Definition inbox (mark : reply unit) : SlackClient unit := {|
  getAuthenticatedClient := getAuthenticatedClient unit remote;
  openConversation := openConversation unit remote;
  postMessage := postMessage unit remote;
  scheduleMessage := scheduleMessage unit remote;
  deleteScheduledMessage := deleteScheduledMessage unit remote;
  getUserCounts := fun w => (Resolved [unreadB; unreadA], w);
  getConversationInfo := fun channel w =>
    (Resolved (if String.eqb channel "A" then Some "100.000000" else None),
     w);
  getConversationHistory := fun channel _ _ _ w =>
    (Resolved (if String.eqb channel "A" then historyA
               else if String.eqb channel "B" then historyB else []), w);
  getConversationReplies := getConversationReplies unit remote;
  getUserInfo := getUserInfo unit remote;
  getUsersInfo := getUsersInfo unit remote;
  markConversation := fun _ _ w => (mark, w);
  fetchFileContent := fetchFileContent unit remote;
  fetchFileBinary := fetchFileBinary unit remote;
  listFiles := listFiles unit remote;
  listDrafts := listDrafts unit remote;
  createDraft := createDraft unit remote;
  deleteDraft := deleteDraft unit remote
|}.

(** [conversations unread --show --mark-read] *)
Definition showAndMark : Conversations.Options := {|
  Conversations.channel := None;
  Conversations.show := true;
  Conversations.markRead := true;
  Conversations.includeMuted := false;
  Conversations.workspace := None;
  Conversations.threadTs := None;
  Conversations.excludeReplies := false;
  Conversations.limit := 20;
  Conversations.oldestFirst := false;
  Conversations.oldest := None;
  Conversations.latest := None;
  Conversations.json := false;
  Conversations.includeTranscripts := true;
  Conversations.includeThreads := false;
  Conversations.ts_option := None
|}.

(** Files of a batch: [n] copies of a report, and a deleted file. *)
Definition report : SlackFile :=
  {| file_id := "F1"; file_name := Some "report.pdf";
     filetype := Some "pdf"; mode := Some "hosted";
     url_private := Some "https://files/F1";
     url_private_download := Some "https://files/F1/download";
     transcription_status := None; vtt := None |}.

Definition deleted : SlackFile :=
  {| file_id := "F2"; file_name := Some "old.txt";
     filetype := Some "text"; mode := Some "tombstone";
     url_private := Some "https://files/F2";
     url_private_download := Some "https://files/F2/download";
     transcription_status := None; vtt := None |}.

(** A remote that lets the client in and refuses every deletion. *)
Definition keeping : SlackClient unit := {|
  getAuthenticatedClient := getAuthenticatedClient unit remote;
  openConversation := openConversation unit remote;
  postMessage := postMessage unit remote;
  scheduleMessage := scheduleMessage unit remote;
  deleteScheduledMessage := fun _ _ w => (Rejected "not_found", w);
  getUserCounts := getUserCounts unit remote;
  getConversationInfo := getConversationInfo unit remote;
  getConversationHistory := getConversationHistory unit remote;
  getConversationReplies := getConversationReplies unit remote;
  getUserInfo := getUserInfo unit remote;
  getUsersInfo := getUsersInfo unit remote;
  markConversation := markConversation unit remote;
  fetchFileContent := fetchFileContent unit remote;
  fetchFileBinary := fetchFileBinary unit remote;
  listFiles := listFiles unit remote;
  listDrafts := listDrafts unit remote;
  createDraft := createDraft unit remote;
  deleteDraft := fun _ w => (Rejected "not_found", w)
|}.

(** [drafts delete --draft-id Dr1] *)
Definition draft1 : Drafts.Options := {|
  Drafts.all := false;
  Drafts.workspace := None;
  Drafts.channelId := "";
  Drafts.text := "";
  Drafts.draftId := "Dr1"
|}.

(** [messages delete-scheduled --channel C7 --message-id Q1] *)
Definition scheduled1 : Messages.Options := {|
  Messages.recipientId := "";
  Messages.message := "";
  Messages.time := "";
  Messages.threadTs := None;
  Messages.workspace := None;
  Messages.channel := "C7";
  Messages.messageId := "Q1"
|}.









(** [unread --mark-read], without [--show]. *)
Definition markOnly : Conversations.Options := {|
  Conversations.channel := None;
  Conversations.show := false;
  Conversations.markRead := true;
  Conversations.includeMuted := false;
  Conversations.workspace := None;
  Conversations.threadTs := None;
  Conversations.excludeReplies := false;
  Conversations.limit := 20;
  Conversations.oldestFirst := false;
  Conversations.oldest := None;
  Conversations.latest := None;
  Conversations.json := false;
  Conversations.includeTranscripts := true;
  Conversations.includeThreads := false;
  Conversations.ts_option := None
|}.

(** [unread --channel target --show --mark-read] *)
Definition onlyChannel (target : string) : Conversations.Options := {|
  Conversations.channel := Some target;
  Conversations.show := true;
  Conversations.markRead := true;
  Conversations.includeMuted := false;
  Conversations.workspace := None;
  Conversations.threadTs := None;
  Conversations.excludeReplies := false;
  Conversations.limit := 20;
  Conversations.oldestFirst := false;
  Conversations.oldest := None;
  Conversations.latest := None;
  Conversations.json := false;
  Conversations.includeTranscripts := true;
  Conversations.includeThreads := false;
  Conversations.ts_option := None
|}.

(** A muted conversation with unread messages, and a remote that lists
    it beside [A] and [B]; the history of [B] cannot be fetched. *)
Definition unreadM : SlackUnreadChannel :=
  {| ch_id := "M"; ch_name := "noise"; unread_count := 9;
     mention_count := 0; is_muted := true; is_im := false;
     is_mpim := false; is_private := false |}.

Definition halfInbox : SlackClient unit := {|
  getAuthenticatedClient := getAuthenticatedClient unit remote;
  openConversation := openConversation unit remote;
  postMessage := postMessage unit remote;
  scheduleMessage := scheduleMessage unit remote;
  deleteScheduledMessage := deleteScheduledMessage unit remote;
  getUserCounts := fun w => (Resolved [unreadB; unreadM; unreadA], w);
  getConversationInfo := getConversationInfo unit (inbox (Resolved tt));
  getConversationHistory := fun channel _ _ _ w =>
    (if String.eqb channel "A" then Resolved historyA
     else Rejected "ratelimited", w);
  getConversationReplies := getConversationReplies unit remote;
  getUserInfo := getUserInfo unit remote;
  getUsersInfo := getUsersInfo unit remote;
  markConversation := markConversation unit remote;
  fetchFileContent := fetchFileContent unit remote;
  fetchFileBinary := fetchFileBinary unit remote;
  listFiles := listFiles unit remote;
  listDrafts := listDrafts unit remote;
  createDraft := createDraft unit remote;
  deleteDraft := deleteDraft unit remote
|}.

End Scenario.

(** * Facts about the string primitives *)

Module JSFacts.

Lemma truthy_false s : JS.truthy s = false ↔ s = EmptyString.
Proof. destruct s; simpl; split; congruence. Qed.

Lemma truthy_true s : JS.truthy s = true ↔ s ≠ EmptyString.
Proof. destruct s; simpl; split; congruence. Qed.

(** Splitting never gives the empty list, and joining the pieces with
    the separator gives the string back. *)
Lemma split_nonempty sep s : JS.split sep s ≠ [].
Proof.
  destruct s as [|c s]; simpl; [done|].
  destruct (Ascii.eqb c sep); [done|].
  destruct (JS.split sep s); done.
Qed.

Lemma join_split sep s :
  JS.join (String sep EmptyString) (JS.split sep s) = s.
Proof.
  unfold JS.join. induction s as [|c s IH]; simpl; [done|].
  destruct (Ascii.eqb_spec c sep) as [->|Hne].
  - pose proof (split_nonempty sep s) as Hs.
    destruct (JS.split sep s) as [|h t]; [done|].
    simpl in *. by rewrite IH.
  - pose proof (split_nonempty sep s) as Hs.
    destruct (JS.split sep s) as [|h t]; [done|].
    simpl in *. destruct t; simpl in *; by rewrite <- IH.
Qed.

Lemma prefix_app p s : String.prefix p (p +:+ s) = true.
Proof.
  induction p as [|c p IH]; simpl; [by destruct s|].
  destruct (ascii_dec c c); [done|congruence].
Qed.

Lemma prefix_inv p s :
  String.prefix p s = true → ∃ rest, s = p +:+ rest.
Proof.
  revert s. induction p as [|c p IH]; intros s H.
  - by exists s.
  - destruct s as [|d s]; simpl in H; [done|].
    destruct (ascii_dec c d) as [->|]; [|done].
    destruct (IH _ H) as [rest ->]. by exists rest.
Qed.

Lemma includes_cons c s needle :
  JS.includes (String c s) needle
  = String.prefix needle (String c s) || JS.includes s needle.
Proof. reflexivity. Qed.

(** [includes] finds exactly the strings that contain the needle. *)
Lemma includes_iff s needle :
  JS.includes s needle = true ↔ ∃ a b, s = a +:+ needle +:+ b.
Proof.
  split.
  - induction s as [|c s IH]; intros H.
    + destruct needle; [|done]. by exists EmptyString, EmptyString.
    + rewrite includes_cons in H. apply orb_true_iff in H as [H|H].
      * apply prefix_inv in H as [rest ->]. by exists EmptyString, rest.
      * destruct (IH H) as (a & b & ->). by exists (String c a), b.
  - intros (a & b & ->). induction a as [|c a IH].
    + change (EmptyString +:+ needle +:+ b) with (needle +:+ b).
      destruct (needle +:+ b) eqn:E.
      * destruct needle; [done|discriminate E].
      * rewrite includes_cons, <- E, prefix_app. done.
    + change (String c a +:+ needle +:+ b)
        with (String c (a +:+ needle +:+ b)).
      rewrite includes_cons, IH. apply orb_true_r.
Qed.

(** A string of white space only is what [trim] takes to the empty
    string. *)
Lemma trimStart_blank s : JS.blank s = true → JS.trimStart s = EmptyString.
Proof.
  induction s as [|c s IH]; simpl; [done|].
  intros [Hc Hs]%andb_true_iff. rewrite Hc. auto.
Qed.

Lemma trimEnd_empty s : JS.trimEnd s = EmptyString → JS.blank s = true.
Proof.
  induction s as [|c s IH]; simpl; [done|].
  destruct (JS.trimEnd s); [|done].
  destruct (JS.is_space c); [|done]. intros _. by rewrite IH.
Qed.

Lemma trimStart_head s :
  match JS.trimStart s with
  | EmptyString => JS.blank s = true
  | String c _ => JS.is_space c = false
  end.
Proof.
  induction s as [|c s IH]; simpl; [done|].
  destruct (JS.is_space c) eqn:Hc; simpl; [|done].
  destruct (JS.trimStart s); [|done]. by rewrite IH.
Qed.

Lemma trim_empty s : JS.trim s = EmptyString ↔ JS.blank s = true.
Proof.
  unfold JS.trim. split.
  - intros H. pose proof (trimStart_head s) as Hh.
    destruct (JS.trimStart s) as [|c r] eqn:E; [done|].
    apply trimEnd_empty in H. simpl in H.
    apply andb_true_iff in H as [H _]. congruence.
  - intros H. by rewrite trimStart_blank.
Qed.

(** White space holds no tag. *)
Lemma strip_blank s : JS.blank s = true → JS.stripTags s = s.
Proof.
  unfold JS.stripTags. induction s as [|c s IH]; simpl; [done|].
  intros [Hc Hs]%andb_true_iff.
  destruct (Ascii.eqb_spec c "<") as [->|_]; [done|].
  simpl. by rewrite IH.
Qed.

Lemma all_digits_forallb s :
  JS.all_digits s = forallb JS.is_digit (list_ascii_of_string s).
Proof. induction s as [|c s IH]; simpl; [done|]. by rewrite IH. Qed.

Lemma string_app_assoc (a b c : string) :
  (a +:+ b) +:+ c = a +:+ (b +:+ c).
Proof.
  induction a as [|x a IH]; [done|].
  change (String x ((a +:+ b) +:+ c) = String x (a +:+ (b +:+ c))).
  by rewrite IH.
Qed.

Lemma string_app_empty (a : string) : a +:+ "" = a.
Proof.
  induction a as [|x a IH]; [done|].
  change (String x (a +:+ "") = String x a). by rewrite IH.
Qed.

Lemma string_of_list_app (a b : list ascii) :
  string_of_list_ascii (a ++ b)
  = string_of_list_ascii a +:+ string_of_list_ascii b.
Proof.
  induction a as [|x a IH]; [done|]. cbn [app string_of_list_ascii].
  rewrite IH. done.
Qed.

End JSFacts.

(** * Facts about the monad of actions *)

Module EffectsFacts.
Import Effects.

Lemma omap_cons {A B} (f : A → option B) x l :
  omap f (x :: l)
  = match f x with Some y => y :: omap f l | None => omap f l end.
Proof. done. Qed.

(** The readers of a trace distribute over its pieces. *)
Lemma calls_app a b : calls (a ++ b) = calls a ++ calls b.
Proof. apply omap_app. Qed.
Lemma calls_cons e es :
  calls (e :: es)
  = match e with Called rq => rq :: calls es | _ => calls es end.
Proof. by destruct e. Qed.
Lemma calls_nil : calls [] = [].
Proof. done. Qed.

Lemma marks_app a b : marks (a ++ b) = marks a ++ marks b.
Proof. apply omap_app. Qed.
Lemma marks_cons e es :
  marks (e :: es)
  = match e with
    | Called (MarkConversation c t) => (c, t) :: marks es
    | _ => marks es
    end.
Proof. destruct e as [ |rq| | | | | | | | | | | | ]; try done. by destruct rq. Qed.
Lemma marks_nil : marks [] = [].
Proof. done. Qed.

Lemma shownIn_app c a b : shownIn c (a ++ b) = shownIn c a ++ shownIn c b.
Proof. apply omap_app. Qed.
Lemma shownIn_cons c e es :
  shownIn c (e :: es)
  = match e with
    | ShowMessage c' m =>
        if String.eqb c' c then m :: shownIn c es else shownIn c es
    | _ => shownIn c es
    end.
Proof.
  destruct e; try done. unfold shownIn. rewrite omap_cons.
  by destruct (String.eqb _ _).
Qed.
Lemma shownIn_nil c : shownIn c [] = [].
Proof. done. Qed.

Lemma repliesFetched_app a b :
  repliesFetched (a ++ b) = repliesFetched a ++ repliesFetched b.
Proof. apply omap_app. Qed.
Lemma repliesFetched_cons e es :
  repliesFetched (e :: es)
  = match e with
    | Called (GetConversationReplies c t _ _ _) =>
        (c, t) :: repliesFetched es
    | _ => repliesFetched es
    end.
Proof. destruct e as [ |rq| | | | | | | | | | | | ]; try done. by destruct rq. Qed.
Lemma repliesFetched_nil : repliesFetched [] = [].
Proof. done. Qed.

Lemma refusals_app a b : refusals (a ++ b) = refusals a ++ refusals b.
Proof. apply omap_app. Qed.
Lemma refusals_cons e es :
  refusals (e :: es)
  = match e with Refused msg => msg :: refusals es | _ => refusals es end.
Proof. by destruct e. Qed.
Lemma refusals_nil : refusals [] = [].
Proof. done. Qed.

Lemma written_app a b : written (a ++ b) = written a ++ written b.
Proof. apply omap_app. Qed.
Lemma written_cons e es :
  written (e :: es)
  = match e with FileWritten p => p :: written es | _ => written es end.
Proof. by destruct e. Qed.
Lemma written_nil : written [] = [].
Proof. done. Qed.

Lemma errorLines_app a b :
  errorLines (a ++ b) = errorLines a ++ errorLines b.
Proof. apply omap_app. Qed.
Lemma errorLines_cons e es :
  errorLines (e :: es)
  = match e with
    | ConsoleError l | PrintError l => l :: errorLines es
    | _ => errorLines es
    end.
Proof. by destruct e. Qed.
Lemma failures_app a b : failures (a ++ b) = failures a ++ failures b.
Proof. apply omap_app. Qed.

Lemma failures_cons e es :
  failures (e :: es)
  = match e with
    | Spinner Fail t => t :: failures es
    | _ => failures es
    end.
Proof. destruct e as [| | | |[]| | | | | | | | |]; done. Qed.

Lemma failures_nil : failures [] = [].
Proof. done. Qed.


Lemma screen_nil : screen [] = [].
Proof. done. Qed.

Lemma errorLines_nil : errorLines [] = [].
Proof. done. Qed.

Create Rewrite HintDb trace.
Hint Rewrite calls_app calls_cons calls_nil marks_app marks_cons marks_nil
  shownIn_app shownIn_cons shownIn_nil repliesFetched_app
  repliesFetched_cons repliesFetched_nil refusals_app refusals_cons
  refusals_nil written_app written_cons written_nil errorLines_app
  errorLines_cons errorLines_nil failures_app failures_cons failures_nil
  : trace.

(** Reads the trace of the goal piece by piece. *)
Ltac read_trace := repeat progress (autorewrite with trace; cbn).

Section Runs.
Context {W : Type}.
Implicit Types s : Machine W.

(** The run of a sequence, of a handler and of an operation, from
    the runs of their parts. *)
Lemma bind_run {A B} (m : M W A) (f : A → M W B) s :
  bind m f s =
  match result (m s) with
  | Ok a =>
      Build_Run (result (f a (final (m s)))) (final (f a (final (m s))))
        (events (m s) ++ events (f a (final (m s))))
  | Thrown e => Build_Run (Thrown e) (final (m s)) (events (m s))
  | Exited c => Build_Run (Exited c) (final (m s)) (events (m s))
  | Diverged => Build_Run Diverged (final (m s)) (events (m s))
  end.
Proof.
  unfold bind. destruct (m s) as [[a|e|c|] s1 es1]; simpl; try done.
  by destruct (f a s1).
Qed.

Lemma try_catch_run {A} (m : M W A) (h : string → M W A) s :
  try_catch m h s =
  match result (m s) with
  | Thrown e =>
      Build_Run (result (h e (final (m s)))) (final (h e (final (m s))))
        (events (m s) ++ events (h e (final (m s))))
  | _ => m s
  end.
Proof.
  unfold try_catch. destruct (m s) as [[a|e|c|] s1 es1]; simpl; try done.
  by destruct (h e s1).
Qed.

Lemma perform_run {A} e (op : W → reply A * W) s :
  perform e op s =
  let s' := {| world := (op (world s)).2; disk := disk s;
               dirs := dirs s |} in
  match (op (world s)).1 with
  | Resolved a => Build_Run (Ok a) s' [e]
  | Rejected msg => Build_Run (Thrown msg) s' [e; Refused msg]
  end.
Proof. unfold perform. by destruct (op (world s)) as [[a|msg] w']. Qed.

Lemma bind_assoc {A B C} (m : M W A) (f : A → M W B) (g : B → M W C) s :
  bind (bind m f) g s = bind m (fun a => bind (f a) g) s.
Proof.
  unfold bind. destruct (m s) as [[a|e|c|] s1 es1]; try done.
  destruct (f a s1) as [[b|e|c|] s2 es2]; try done.
  destruct (g b s2) as [o s3 es3]. by rewrite app_assoc.
Qed.

Lemma bind_ret_l {A B} (a : A) (f : A → M W B) s :
  bind (ret a) f s = f a s.
Proof. unfold bind, ret. by destruct (f a s). Qed.

(** A loop over two lists in a row. *)
Lemma foldM_app {A B} (body : B → A → M W B) xs ys b s :
  foldM body (xs ++ ys) b s
  = bind (foldM body xs b) (foldM body ys) s.
Proof.
  revert b s. induction xs as [|x xs IH]; intros b s; cbn [foldM app].
  - by rewrite bind_ret_l.
  - rewrite bind_assoc, !(bind_run (body b x)).
    destruct (result (body b x s)); try done. by rewrite IH.
Qed.

Lemma settles_catchable {A} (m : M W A) : settles m → catchable m.
Proof. intros H s. destruct (H s) as [a ->]. done. Qed.

Lemma settles_ret {A} (a : A) : settles (ret a : M W A).
Proof. intros s. by exists a. Qed.

Lemma settles_emit e : settles (emit e : M W unit).
Proof. intros s. by exists tt. Qed.

Lemma settles_bind {A B} (m : M W A) (f : A → M W B) :
  settles m → (∀ a, settles (f a)) → settles (bind m f).
Proof.
  intros Hm Hf s. rewrite bind_run.
  destruct (Hm s) as [a ->]. destruct (Hf a (final (m s))) as [b Hb].
  exists b. done.
Qed.

Lemma catchable_perform {A} e (op : W → reply A * W) :
  catchable (perform e op).
Proof. intros s. rewrite perform_run. by destruct (op (world s)).1. Qed.

Lemma catchable_bind {A B} (m : M W A) (f : A → M W B) :
  catchable m → (∀ a, catchable (f a)) → catchable (bind m f).
Proof.
  intros Hm Hf s. rewrite bind_run. specialize (Hm s).
  destruct (result (m s)) as [a| | |]; try done.
  apply (Hf a (final (m s))).
Qed.

Lemma settles_try_catch {A} (m : M W A) (h : string → M W A) :
  catchable m → (∀ e, settles (h e)) → settles (try_catch m h).
Proof.
  intros Hm Hh s. rewrite try_catch_run. specialize (Hm s).
  destruct (result (m s)) as [a|e| |] eqn:E; try done.
  - exists a. by rewrite E.
  - destruct (Hh e (final (m s))) as [b Hb]. by exists b.
Qed.

Lemma settles_foldM {A B} (body : B → A → M W B) xs :
  (∀ b x, settles (body b x)) → ∀ b, settles (foldM body xs b).
Proof.
  intros Hbody. induction xs as [|x xs IH]; intros b; simpl.
  - apply settles_ret.
  - apply settles_bind; [apply Hbody | apply IH].
Qed.


Lemma settles_mapAccumM {A B S} (body : S → A → M W (S * B)) xs :
  (∀ st x, settles (body st x)) → ∀ st, settles (mapAccumM body xs st).
Proof.
  intros Hbody. induction xs as [|x xs IH]; intros st; simpl.
  - apply settles_ret.
  - apply settles_bind; [apply Hbody | intros r].
    apply settles_bind; [apply IH | intros rs; apply settles_ret].
Qed.

(** *** What a loop with a total body leaves in the trace *)

Section Picked.
Context {C : Type} (pick : Event → option C).

Lemma picked_foldM {A B} (body : B → A → M W B) (g : A → list C) xs :
  (∀ b x s, (∃ b', result (body b x s) = Ok b')
            ∧ omap pick (events (body b x s)) = g x) →
  ∀ b s, omap pick (events (foldM body xs b s)) = xs ≫= g.
Proof.
  intros Hbody. induction xs as [|x xs IH]; intros b s; [done|].
  simpl. rewrite bind_run.
  destruct (Hbody b x s) as [[b' Hb] Hg]. rewrite Hb. simpl.
  by rewrite omap_app, Hg, IH.
Qed.


Lemma picked_mapAccumM {A B S} (body : S → A → M W (S * B))
    (g : A → list C) xs :
  (∀ st x s, (∃ r, result (body st x s) = Ok r)
             ∧ omap pick (events (body st x s)) = g x) →
  ∀ st s, omap pick (events (mapAccumM body xs st s)) = xs ≫= g.
Proof.
  intros Hbody. induction xs as [|x xs IH]; intros st s; [done|].
  simpl. rewrite bind_run.
  destruct (Hbody st x s) as [[r Hr] Hg]. rewrite Hr. simpl.
  rewrite omap_app, Hg. f_equal.
  rewrite bind_run. destruct (result (mapAccumM body xs _ _)) eqn:E;
    simpl; rewrite ?app_nil_r; apply IH.
Qed.
End Picked.

(** *** A property of traces that a loop preserves *)

Section Preserved.
Context (Q : list Event → Prop).
Hypothesis Q_nil : Q [].
Hypothesis Q_app : ∀ a b, Q a → Q b → Q (a ++ b).

Lemma preserved_bind {A B} (m : M W A) (f : A → M W B) s :
  Q (events (m s)) → (∀ a s', Q (events (f a s'))) →
  Q (events (bind m f s)).
Proof.
  intros Hm Hf. rewrite bind_run.
  destruct (result (m s)); simpl; auto.
Qed.

Lemma preserved_foldM {A B} (body : B → A → M W B) xs :
  (∀ b x s, Q (events (body b x s))) →
  ∀ b s, Q (events (foldM body xs b s)).
Proof.
  intros Hbody. induction xs as [|x xs IH]; intros b s; simpl; [done|].
  apply preserved_bind; auto.
Qed.


End Preserved.

(** *** The element at one position of an updating loop *)

Lemma mapAccumM_at {A B S} (body : S → A → M W (S * B)) pre x post st s :
  (∀ st x, settles (body st x)) →
  let before := mapAccumM body pre st s in
  ∃ st1 pre' st2 x' st3 post',
    result before = Ok (st1, pre')
    ∧ length pre' = length pre
    ∧ result (body st1 x (final before)) = Ok (st2, x')
    ∧ result (mapAccumM body (pre ++ x :: post) st s)
      = Ok (st3, pre' ++ x' :: post')
    ∧ length post' = length post.
Proof.
  intros Hbody. revert st s.
  induction pre as [|p pre IH]; intros st s before.
  - subst before. simpl.
    destruct (Hbody st x s) as [[st2 x'] Hx].
    destruct (settles_mapAccumM body post Hbody st2 (final (body st x s)))
      as [[st3 post'] Hpost].
    exists st, [], st2, x', st3, post'.
    split_and!; try done.
    + rewrite bind_run, Hx. simpl. rewrite bind_run, Hpost. done.
    + clear -Hpost Hbody. revert st2 st3 post' Hpost.
      generalize (final (body st x s)).
      induction post as [|q post IH]; intros s0 st2 st3 post' H.
      * simpl in H. by inversion H.
      * simpl in H. rewrite bind_run in H.
        destruct (Hbody st2 q s0) as [[stq q'] Hq]. rewrite Hq in H.
        simpl in H. rewrite bind_run in H.
        destruct (result (mapAccumM body post stq _)) as [[stx rest]| | |]
          eqn:E; simpl in H; try done.
        inversion H; subst. simpl. f_equal. eapply IH. exact E.
  - subst before. simpl.
    destruct (Hbody st p s) as [[stp p'] Hp].
    destruct (IH stp (final (body st p s)))
      as (st1 & pre' & st2 & x' & st3 & post' & H1 & H2 & H3 & H4 & H5).
    exists st1, (p' :: pre'), st2, x', st3, post'.
    rewrite !bind_run, Hp. simpl. rewrite !bind_run, H1. simpl.
    rewrite H4. simpl. rewrite H2.
    split_and!; done.
Qed.




End Runs.
End EffectsFacts.

(** * The transcript of a WebVTT payload *)

Module VttFacts.
Import JSFacts.

(** ** The primitives of the code and the words of the specification *)

Lemma lines_from_split current s :
  VttSpec.lines_from current (list_ascii_of_string s)
  = match JS.split "010" s with
    | h :: t => (string_of_list_ascii (rev current) +:+ h) :: t
    | [] => []
    end.
Proof.
  revert current. induction s as [|c s IH]; intros current.
  { cbn. by rewrite string_app_empty. }
  cbn [list_ascii_of_string VttSpec.lines_from JS.split].
  pose proof (split_nonempty "010" s) as Hsome.
  destruct (Ascii.eqb c "010").
  - rewrite string_app_empty, IH.
    by destruct (JS.split "010" s) as [|h t].
  - rewrite IH. destruct (JS.split "010" s) as [|h t]; [done|].
    cbn [rev]. rewrite string_of_list_app, string_app_assoc. done.
Qed.

Lemma lines_split s : VttSpec.lines s = JS.split "010" s.
Proof.
  unfold VttSpec.lines. rewrite lines_from_split.
  pose proof (split_nonempty "010" s) as Hsome.
  by destruct (JS.split "010" s) as [|h t].
Qed.

(** A fact about one character holds when it holds of the 256 of
    them. *)
Lemma every_char (P : ascii → bool) c :
  forallb P (List.map ascii_of_nat (seq 0 256)) = true → P c = true.
Proof.
  intros Hall. rewrite List.forallb_forall in Hall. apply Hall.
  apply in_map_iff. exists (nat_of_ascii c).
  split; [apply ascii_nat_embedding|].
  apply in_seq. pose proof (nat_ascii_bounded c). lia.
Qed.

Lemma white_space c : VttSpec.white c = JS.is_space c.
Proof.
  apply Bool.eqb_prop.
  apply (every_char (fun c => Bool.eqb (VttSpec.white c) (JS.is_space c))).
  by vm_compute.
Qed.

Lemma dropWhite_trimStart s :
  VttSpec.dropWhite (list_ascii_of_string s)
  = list_ascii_of_string (JS.trimStart s).
Proof.
  induction s as [|c s IH]; [done|].
  cbn [list_ascii_of_string VttSpec.dropWhite JS.trimStart].
  rewrite white_space. by destruct (JS.is_space c).
Qed.

Lemma dropWhite_all l :
  forallb VttSpec.white l = true → VttSpec.dropWhite l = [].
Proof.
  induction l as [|c l IH]; [done|]. cbn [forallb VttSpec.dropWhite].
  intros [-> Hl]%andb_true_iff. auto.
Qed.

Lemma dropWhite_app a b :
  forallb VttSpec.white a = false →
  VttSpec.dropWhite (a ++ b) = VttSpec.dropWhite a ++ b.
Proof.
  induction a as [|c a IH]; [done|].
  cbn [forallb VttSpec.dropWhite app].
  destruct (VttSpec.white c); [|done]. cbn [andb]. exact IH.
Qed.

Lemma dropWhite_white a b :
  forallb VttSpec.white a = true →
  VttSpec.dropWhite (a ++ b) = VttSpec.dropWhite b.
Proof.
  induction a as [|c a IH]; [done|].
  cbn [forallb VttSpec.dropWhite app].
  intros [-> Ha]%andb_true_iff. auto.
Qed.

Lemma dropWhite_some l :
  forallb VttSpec.white l = false → VttSpec.dropWhite l ≠ [].
Proof.
  induction l as [|c l IH]; [done|]. cbn [forallb VttSpec.dropWhite].
  destruct (VttSpec.white c); [|done]. cbn [andb]. exact IH.
Qed.

Lemma trimEnd_rev s :
  list_ascii_of_string (JS.trimEnd s)
  = rev (VttSpec.dropWhite (rev (list_ascii_of_string s))).
Proof.
  induction s as [|c s IH]; [done|].
  cbn [list_ascii_of_string rev JS.trimEnd].
  destruct (forallb VttSpec.white (rev (list_ascii_of_string s))) eqn:Hall.
  - rewrite dropWhite_white by done.
    rewrite dropWhite_all in IH by done. cbn [rev] in IH.
    destruct (JS.trimEnd s); [|done].
    cbn [VttSpec.dropWhite]. rewrite white_space.
    by destruct (JS.is_space c).
  - rewrite dropWhite_app by done. rewrite rev_unit, <- IH.
    pose proof (dropWhite_some _ Hall) as Hsome.
    destruct (JS.trimEnd s) as [|d r] eqn:Hend; [|done].
    destruct Hsome. apply (f_equal (@rev ascii)) in IH.
    rewrite rev_involutive in IH. by rewrite <- IH.
Qed.

Lemma strip_trim s : VttSpec.strip s = JS.trim s.
Proof.
  unfold VttSpec.strip, JS.trim.
  rewrite dropWhite_trimStart, <- trimEnd_rev.
  apply string_of_list_ascii_of_string.
Qed.

Lemma afterClose_after_gt s : VttSpec.afterClose s = JS.after_gt s.
Proof. induction s as [|c s IH]; [done|]. cbn. by rewrite IH. Qed.

Lemma after_gt_shorter s rest :
  JS.after_gt s = Some rest → String.length rest < String.length s.
Proof.
  revert rest. induction s as [|c s IH]; intros rest; [done|]. cbn.
  destruct (Ascii.eqb c ">").
  - intros [= ->]. lia.
  - intros H. apply IH in H. lia.
Qed.

(** Inside a tag, the scan of the code goes on to the first [>]. *)
Lemma strip_inside s :
  JS.strip_from true s
  = match JS.after_gt s with
    | Some rest => JS.strip_from false rest
    | None => EmptyString
    end.
Proof.
  induction s as [|c s IH]; [done|]. cbn.
  by destruct (Ascii.eqb c ">").
Qed.

Lemma untag_fuel_strip fuel :
  ∀ s, String.length s ≤ fuel →
       VttSpec.untag_fuel fuel s = JS.strip_from false s.
Proof.
  induction fuel as [|fuel IH]; intros s Hlen.
  { destruct s; [done|cbn in Hlen; lia]. }
  destruct s as [|c s]; [done|]. cbn in Hlen.
  cbn [VttSpec.untag_fuel JS.strip_from].
  destruct (Ascii.eqb c "<"); cbn [andb]; [|by rewrite IH by lia].
  destruct s as [|d inner]; [done|]. cbn in Hlen.
  cbn [JS.tag_opens].
  destruct (Ascii.eqb d ">") eqn:Hd; cbn [negb andb].
  { by rewrite IH by (cbn; lia). }
  rewrite afterClose_after_gt.
  destruct (JS.after_gt inner) as [rest|] eqn:Hrest.
  - rewrite bool_decide_eq_true_2 by by eexists.
    cbn [JS.strip_from]. rewrite Hd, strip_inside, Hrest.
    apply IH. apply after_gt_shorter in Hrest. lia.
  - rewrite bool_decide_eq_false_2 by (by intros [? ?]).
    by rewrite IH by (cbn; lia).
Qed.

Lemma untag_stripTags s : VttSpec.untag s = JS.stripTags s.
Proof. by apply untag_fuel_strip. Qed.

Lemma startsWebvtt_startsWith s :
  VttSpec.startsWebvtt s = JS.startsWith s "WEBVTT".
Proof.
  unfold VttSpec.startsWebvtt, JS.startsWith.
  destruct (String.prefix "WEBVTT" s) eqn:Hp.
  - apply prefix_correct in Hp. cbn [String.length] in Hp.
    rewrite Hp. apply String.eqb_refl.
  - apply String.eqb_neq. intros Heq.
    assert (String.prefix "WEBVTT" s = true); [|congruence].
    by apply prefix_correct.
Qed.

Lemma arrowHere_prefix s : VttSpec.arrowHere s = String.prefix "-->" s.
Proof.
  destruct s as [|c1 [|c2 [|c3 s]]];
    cbn [VttSpec.arrowHere String.prefix]; [done|..].
  - by destruct (ascii_dec "-" c1).
  - destruct (ascii_dec "-" c1); [|done]. by destruct (ascii_dec "-" c2).
  - destruct (ascii_dec "-" c1) as [<-|Hne].
    2:{ destruct (Ascii.eqb_spec c1 "-"); [congruence|done]. }
    destruct (ascii_dec "-" c2) as [<-|Hne].
    2:{ destruct (Ascii.eqb_spec c2 "-"); [congruence|done]. }
    destruct (ascii_dec ">" c3) as [<-|Hne]; [by destruct s|].
    destruct (Ascii.eqb_spec c3 ">"); [congruence|done].
Qed.

Lemma hasArrow_includes s : VttSpec.hasArrow s = JS.includes s "-->".
Proof.
  induction s as [|c s IH]; [done|].
  cbn [VttSpec.hasArrow]. rewrite includes_cons, arrowHere_prefix, IH.
  done.
Qed.

Lemma digit_is_digit c : VttSpec.digit c = JS.is_digit c.
Proof.
  apply Bool.eqb_prop.
  apply (every_char (fun c => Bool.eqb (VttSpec.digit c) (JS.is_digit c))).
  by vm_compute.
Qed.

Lemma isNumber_test s : VttSpec.isNumber s = JS.test_digits s.
Proof.
  unfold VttSpec.isNumber, JS.test_digits. rewrite all_digits_forallb.
  f_equal; [by destruct s|].
  induction (list_ascii_of_string s) as [|c l IH]; [done|].
  cbn [forallb]. by rewrite digit_is_digit, IH.
Qed.

Lemma nonempty_truthy s : VttSpec.nonempty s = JS.truthy s.
Proof. by destruct s. Qed.

Lemma spaced_join parts : VttSpec.spaced parts = JS.join " " parts.
Proof.
  unfold JS.join. induction parts as [|p rest IH]; simpl; [done|].
  destruct rest; [done|]. by rewrite IH.
Qed.

Lemma kept_keepLine line : VttSpec.kept line = Vtt.keepLine line.
Proof.
  unfold VttSpec.kept, Vtt.keepLine. cbv zeta.
  by rewrite strip_trim, nonempty_truthy, startsWebvtt_startsWith,
    hasArrow_includes, isNumber_test.
Qed.

Lemma flattened_parse payload :
  Vtt.parseVttToText payload = VttSpec.flattened payload.
Proof.
  unfold Vtt.parseVttToText, VttSpec.flattened.
  rewrite spaced_join, lines_split. f_equal.
  induction (JS.split "010" payload) as [|line rest IH]; [done|].
  cbn [List.filter]. rewrite kept_keepLine.
  destruct (Vtt.keepLine line); [|exact IH].
  cbn [List.map List.filter].
  rewrite strip_trim, untag_stripTags, nonempty_truthy.
  destruct (JS.truthy _); by rewrite IH.
Qed.

(** ** Where the two descriptions agree *)

Lemma untag_empty : VttSpec.untag "" = "".
Proof. done. Qed.

Lemma clean_survivors ls first :
  Forall (fun line => VttSpec.strip line = line
                      ∧ VttSpec.strip (VttSpec.untag line)
                        = VttSpec.untag line) ls →
  Forall (fun line => VttSpec.startsWebvtt line = false) (tail ls) →
  (first = false →
   Forall (fun line => VttSpec.startsWebvtt line = false) ls) →
  List.filter VttSpec.nonempty
    (List.map (fun line => VttSpec.strip (VttSpec.untag line))
       (List.filter VttSpec.kept ls))
  = List.filter VttSpec.nonempty
      (List.map VttSpec.untag (VttSpec.survivors first ls)).
Proof.
  revert first. induction ls as [|line rest IH]; intros first Hclean Htail
    Hfirst; [done|].
  apply Forall_cons in Hclean as [[Hline Hbare] Hclean].
  cbn [tail] in Htail.
  assert (List.filter VttSpec.nonempty
            (List.map (fun line => VttSpec.strip (VttSpec.untag line))
               (List.filter VttSpec.kept rest))
          = List.filter VttSpec.nonempty
              (List.map VttSpec.untag (VttSpec.survivors false rest)))
    as Hrest.
  { apply IH; [done| |done]. by destruct rest; [|inversion Htail]. }
  cbn [List.filter VttSpec.survivors]. unfold VttSpec.kept at 1. cbv zeta.
  rewrite Hline.
  assert (first && VttSpec.startsWebvtt line = VttSpec.startsWebvtt line)
    as ->.
  { destruct first; [done|]. specialize (Hfirst eq_refl).
    apply Forall_cons in Hfirst as [-> _]. done. }
  destruct (VttSpec.startsWebvtt line); cbn [negb andb orb].
  { by rewrite andb_false_r. }
  destruct (VttSpec.hasArrow line); cbn [negb andb orb].
  { by rewrite andb_false_r. }
  destruct (VttSpec.isNumber line); cbn [negb andb orb].
  { by rewrite andb_false_r. }
  rewrite !andb_true_r.
  destruct (VttSpec.nonempty line) eqn:Hline'.
  - cbn [List.map List.filter]. rewrite Hbare, Hrest. done.
  - destruct line; [|done]. exact Hrest.
Qed.

(** C7 (amended).  [parseVttToText] splits the payload at the line
    feeds and takes every line without the white space around it; it
    drops the lines that are empty then, every line that opens with
    [WEBVTT], every line with the arrow of a cue timing and every line
    of digits only; it strips the tags from the other lines, and the
    white space around what is left; it discards the lines that are
    empty by then and joins the rest with single spaces.  On a payload
    in which no line has white space around it, also once its tags
    are stripped, and in which no line after the first opens with
    [WEBVTT], this is the transcript as the specification words it.
    On the payload of the scenario the result is [Hello world]. *)
Theorem parseVttToText_transcript :
  (∀ payload, Vtt.parseVttToText payload = VttSpec.flattened payload)
  ∧ (∀ payload,
       VttSpec.clean payload →
       Vtt.parseVttToText payload = VttSpec.transcript payload)
  ∧ Vtt.parseVttToText Vtt.sample = "Hello world".
Proof.
  split; [exact flattened_parse|]. split; [|reflexivity].
  intros payload [Hclean Htail]. rewrite flattened_parse.
  unfold VttSpec.flattened, VttSpec.transcript. f_equal.
  by apply clean_survivors.
Qed.

(** The payload of the scenario is clean. *)
Lemma parseVttToText_transcript_witness :
  VttSpec.clean Vtt.sample
  ∧ VttSpec.transcript Vtt.sample = "Hello world"
  ∧ Vtt.parseVttToText Vtt.sample = VttSpec.transcript Vtt.sample.
Proof.
  assert (VttSpec.clean Vtt.sample) as Hclean.
  { split; repeat constructor. }
  split; [exact Hclean|]. split; [reflexivity|].
  exact (proj1 (proj2 parseVttToText_transcript) Vtt.sample Hclean).
Defined.

(** A caption that opens with [WEBVTT] is no header line, and the
    transcript as worded holds it; the code drops it.  A sequence
    number with white space around it is no line of digits only, and
    the transcript as worded holds it; the code drops it. *)
Lemma parseVttToText_counterexample :
  VttSpec.transcript VttSpec.aboutWebvtt = "WEBVTT is a format"
  ∧ Vtt.parseVttToText VttSpec.aboutWebvtt = ""
  ∧ VttSpec.transcript VttSpec.padded = " 1  Hello"
  ∧ Vtt.parseVttToText VttSpec.padded = "Hello".
Proof. by vm_compute. Qed.

End VttFacts.

(** * Sending and scheduling *)

Module MessagesFacts.
Import Slack Effects Messages.
Local Open Scope Z_scope.

Section Routing.
Context {W : Type} (host : Host W) (client : SlackClient W).

(** The calls of [send], whatever the remote answers. *)
Lemma send_calls options s :
  calls (events (send client options s)) =
  match (getAuthenticatedClient W client (workspace options) (world s)).1 with
  | Rejected _ => []
  | Resolved _ =>
      let w1 := (getAuthenticatedClient W client (workspace options)
                   (world s)).2 in
      routed (recipientId options)
        (openConversation W client (recipientId options) w1).1
        (fun cid => PostMessage cid (message options) (threadTs options))
  end.
Proof.
  unfold send, authenticate, resolveRecipient, routed, await, perform,
    bind, try_catch, emit, exit, ret.
  cbn.
  destruct (getAuthenticatedClient W client _ _) as [[[]|e] w1]; cbn; [|done].
  destruct (JS.startsWith _ _); cbn.
  - destruct (openConversation W client _ _) as [[cid|e] w2]; cbn; [|done].
    destruct (postMessage W client _ _ _ _) as [[t|e] w3]; cbn; done.
  - destruct (postMessage W client _ _ _ _) as [[t|e] w3]; cbn; done.
Qed.

(** The run of [schedule] once the client is there and the time has
    been read: either a check fails and the action exits with
    status 1 after printing the message, without a call, or the
    message is routed to the recipient. *)
Lemma schedule_run options s postAt :
  (getAuthenticatedClient W client (workspace options) (world s)).1
    = Resolved tt →
  postAtOf host (time options) = Some postAt →
  let w1 := (getAuthenticatedClient W client (workspace options)
               (world s)).2 in
  let now := JS.floor_seconds (date_now W host w1) in
  let r := schedule host client options s in
  if (postAt <=? now) || (postAt >? maxTime now) then
    calls (events r) = [] ∧ result r = Exited 1 ∧
    errorLines (events r) =
      [if postAt <=? now then "Scheduled time must be in the future."
       else "Cannot schedule messages more than 120 days in the future."]
  else
    calls (events r) =
      routed (recipientId options)
        (openConversation W client (recipientId options) w1).1
        (fun cid => ScheduleMessage cid (message options) postAt
                      (threadTs options)).
Proof.
  intros Hauth Hparse. cbv zeta.
  unfold schedule, authenticate, parseTime, validateTime,
    resolveRecipient, routed, await, perform, observe, bind, try_catch,
    emit, exit, ret, throw.
  cbn. rewrite Hparse.
  destruct (getAuthenticatedClient W client _ _) as [[[]|e] w1];
    cbn in *; [|done].
  destruct (postAt <=? _) eqn:Hlow; cbn; [done|].
  destruct (postAt >? _) eqn:Hhigh; cbn; [done|].
  destruct (JS.startsWith _ _); cbn.
  - destruct (openConversation W client _ _) as [[cid|e] w2]; cbn; [|done].
    destruct (scheduleMessage W client _ _ _ _ _) as [[t|e] w3]; cbn; done.
  - destruct (scheduleMessage W client _ _ _ _ _) as [[t|e] w3]; cbn; done.
Qed.

Lemma startsWith_U recipient :
  JS.startsWith recipient "U" = true ↔ ∃ rest, recipient = String "U" rest.
Proof.
  unfold JS.startsWith. split.
  - intros [rest ->]%JSFacts.prefix_inv. by exists rest.
  - intros [rest ->]. apply (JSFacts.prefix_app "U" rest).
Qed.

(** C5.  Once the post-at time has been resolved, [schedule] checks it
    against the clock before it calls the remote: at [now] or
    earlier, and later than [now] + 120 days, the action prints the
    error and exits with status 1 without having issued a remote
    operation; strictly after [now] and up to [now] + 120 days it
    goes on to the remote calls that schedule the message. *)
Theorem schedule_bounds options s postAt :
  (getAuthenticatedClient W client (workspace options) (world s)).1
    = Resolved tt →
  postAtOf host (time options) = Some postAt →
  let w1 := (getAuthenticatedClient W client (workspace options)
               (world s)).2 in
  let now := JS.floor_seconds (date_now W host w1) in
  let r := schedule host client options s in
  (postAt ≤ now ∨ now + 120 * 24 * 60 * 60 < postAt →
   calls (events r) = [] ∧ result r = Exited 1 ∧
   ∃ msg, errorLines (events r) = [msg])
  ∧ (now < postAt ≤ now + 120 * 24 * 60 * 60 →
     calls (events r) =
       routed (recipientId options)
         (openConversation W client (recipientId options) w1).1
         (fun cid => ScheduleMessage cid (message options) postAt
                       (threadTs options))
     ∧ hd_error (calls (events r)) =
         Some (if JS.startsWith (recipientId options) "U"
               then OpenConversation (recipientId options)
               else ScheduleMessage (recipientId options)
                      (message options) postAt (threadTs options))).
Proof.
  intros Hauth Hparse w1 now r.
  pose proof (schedule_run options s postAt Hauth Hparse) as Hrun.
  cbv zeta in Hrun. fold w1 now r in Hrun. unfold maxTime in Hrun.
  split.
  - intros Hout.
    assert ((postAt <=? now) || (postAt >? now + 120 * 24 * 60 * 60) = true)
      as Hcheck.
    { apply orb_true_iff. destruct Hout; [left|right]; lia. }
    rewrite Hcheck in Hrun. destruct Hrun as (? & ? & ?). eauto.
  - intros Hin.
    assert ((postAt <=? now) || (postAt >? now + 120 * 24 * 60 * 60) = false)
      as Hcheck.
    { apply orb_false_iff. lia. }
    rewrite Hcheck in Hrun. split; [done|]. rewrite Hrun. unfold routed.
    destruct (JS.startsWith _ _); [|done].
    by destruct (openConversation W client _ _).1.
Qed.

(** C10.  The recipient of [send] and of [schedule] is taken for a
    user exactly when its id begins with [U]: then a direct
    conversation is opened with that user first and the message goes
    to the conversation the remote returns (and nowhere when the
    remote refuses to open one); any other id is handed to the post
    or schedule call as it is. *)
Theorem recipient_routing options s :
  (getAuthenticatedClient W client (workspace options) (world s)).1
    = Resolved tt →
  let w1 := (getAuthenticatedClient W client (workspace options)
               (world s)).2 in
  let recipient := recipientId options in
  let opened := (openConversation W client recipient w1).1 in
  let sent := calls (events (send client options s)) in
  let post cid := PostMessage cid (message options) (threadTs options) in
  ((∃ rest, recipient = String "U" rest) →
   match opened with
   | Resolved cid => sent = [OpenConversation recipient; post cid]
   | Rejected _ => sent = [OpenConversation recipient]
   end)
  ∧ ((∀ rest, recipient ≠ String "U" rest) → sent = [post recipient])
  ∧ ∀ postAt,
      postAtOf host (time options) = Some postAt →
      (let now := JS.floor_seconds (date_now W host w1) in
       now < postAt ≤ now + 120 * 24 * 60 * 60) →
      let scheduled := calls (events (schedule host client options s)) in
      let plan cid :=
        ScheduleMessage cid (message options) postAt (threadTs options) in
      ((∃ rest, recipient = String "U" rest) →
       match opened with
       | Resolved cid => scheduled = [OpenConversation recipient; plan cid]
       | Rejected _ => scheduled = [OpenConversation recipient]
       end)
      ∧ ((∀ rest, recipient ≠ String "U" rest) →
         scheduled = [plan recipient]).
Proof.
  intros Hauth w1 recipient opened sent post.
  assert (∀ deliver,
             ((∃ rest, recipient = String "U" rest) →
              match opened with
              | Resolved cid =>
                  routed recipient opened deliver
                  = [OpenConversation recipient; deliver cid]
              | Rejected _ =>
                  routed recipient opened deliver
                  = [OpenConversation recipient]
              end)
             ∧ ((∀ rest, recipient ≠ String "U" rest) →
                routed recipient opened deliver = [deliver recipient]))
    as Hroute.
  { intros deliver. unfold routed. split.
    - intros HU%startsWith_U. rewrite HU. by destruct opened.
    - intros HnU. destruct (JS.startsWith recipient "U") eqn:HU; [|done].
      apply startsWith_U in HU as [rest ->]. by destruct (HnU rest). }
  assert (sent = routed recipient opened post) as ->.
  { subst sent. rewrite send_calls, Hauth. done. }
  split; [apply Hroute|]. split; [apply Hroute|].
  intros postAt Hparse Hin scheduled plan.
  assert (scheduled = routed recipient opened plan) as ->.
  { pose proof (schedule_run options s postAt Hauth Hparse) as Hrun.
    cbv zeta in Hrun, Hin. unfold maxTime in Hrun. fold w1 in Hrun.
    destruct (postAt <=? _) eqn:Hlow in Hrun; [lia|].
    destruct (postAt >? _) eqn:Hhigh in Hrun; [lia|].
    exact Hrun. }
  apply Hroute.
Qed.

End Routing.

(** An hour ahead of the clock the message is scheduled; at the clock's
    time and a second beyond the 120 days the action stops at the
    check. *)
Lemma schedule_bounds_witness :
  calls (events (schedule Scenario.host Scenario.remote
                   (Scenario.toChannel "1003600") Scenario.start))
    = [ScheduleMessage "C7" "hello" 1003600 None]
  ∧ calls (events (schedule Scenario.host Scenario.remote
                     (Scenario.toChannel "1000000") Scenario.start)) = []
  ∧ calls (events (schedule Scenario.host Scenario.remote
                     (Scenario.toChannel "11368001") Scenario.start)) = [].
Proof.
  split; [|split].
  - apply (schedule_bounds Scenario.host Scenario.remote
             (Scenario.toChannel "1003600") Scenario.start 1003600
             eq_refl eq_refl).
    cbn. change (JS.floor_seconds 1000000000) with 1000000. lia.
  - apply (schedule_bounds Scenario.host Scenario.remote
             (Scenario.toChannel "1000000") Scenario.start 1000000
             eq_refl eq_refl).
    cbn. change (JS.floor_seconds 1000000000) with 1000000. lia.
  - apply (schedule_bounds Scenario.host Scenario.remote
             (Scenario.toChannel "11368001") Scenario.start 11368001
             eq_refl eq_refl).
    cbn. change (JS.floor_seconds 1000000000) with 1000000. lia.
Defined.

(** A message for the user [U42] goes to the direct conversation that
    the remote opens; a message for [C7] goes to [C7]. *)
Lemma recipient_routing_witness :
  calls (events (send Scenario.remote (Scenario.toUser "") Scenario.start))
    = [OpenConversation "U42"; PostMessage "D-U42" "hello" None]
  ∧ calls (events (send Scenario.remote (Scenario.toChannel "")
                     Scenario.start))
    = [PostMessage "C7" "hello" None]
  ∧ calls (events (schedule Scenario.host Scenario.remote
                     (Scenario.toUser "1003600") Scenario.start))
    = [OpenConversation "U42"; ScheduleMessage "D-U42" "hello" 1003600 None].
Proof.
  split; [|split].
  - refine (proj1 (recipient_routing Scenario.host Scenario.remote
                     (Scenario.toUser "") Scenario.start eq_refl) _).
    by exists "42".
  - refine (proj1 (proj2 (recipient_routing Scenario.host Scenario.remote
                            (Scenario.toChannel "") Scenario.start eq_refl))
              _).
    intros rest. cbn. discriminate.
  - refine (proj1 (proj2 (proj2 (recipient_routing Scenario.host
                                   Scenario.remote
                                   (Scenario.toUser "1003600")
                                   Scenario.start eq_refl))
                     1003600 eq_refl _) _).
    + cbn. change (JS.floor_seconds 1000000000) with 1000000. lia.
    + by exists "42".
Defined.

End MessagesFacts.

(** * Thread expansion *)

Module ThreadFacts.
Import Slack Effects EffectsFacts Conversations.

Section Expansion.
Context {W : Type} (client : SlackClient W).

Lemma settles_userOfReply users reply :
  settles (userOfReply client users reply).
Proof.
  unfold userOfReply. destruct (present (user reply)) as [uid|];
    [|apply settles_ret].
  destruct (bool_decide _); [apply settles_ret|].
  apply settles_try_catch.
  - apply catchable_bind; [apply catchable_perform|].
    intros found. apply settles_catchable, settles_ret.
  - intros e. apply settles_bind; [apply settles_emit|].
    intros _. apply settles_ret.
Qed.

(** The lookups of the authors fetch no thread. *)
Lemma userOfReply_fetches users reply s :
  repliesFetched (events (userOfReply client users reply s)) = [].
Proof.
  unfold userOfReply. destruct (present (user reply)) as [uid|]; [|done].
  destruct (bool_decide _); [done|].
  unfold try_catch, bind, await, perform, emit, ret.
  by destruct (getUserInfo W client uid (world s)) as [[found|e] w'].
Qed.

Lemma lookups_fetch replies users s :
  repliesFetched (events (foldM (userOfReply client) replies users s)) = [].
Proof.
  unfold repliesFetched.
  rewrite (picked_foldM _ _ (fun _ => [])).
  - by induction replies.
  - intros b x s'. split; [apply settles_userOfReply|].
    apply userOfReply_fetches.
Qed.

(** One thread parent: the replies are fetched once; when the remote
    answers, all but the first entry are stored, in the order
    received, and when it refuses the message is left as it was. *)
Lemma repliesFor_run channelId users msg s :
  let reply :=
    (getConversationReplies W client channelId (ts msg) None None None
       (world s)).1 in
  let r := repliesFor client channelId users msg s in
  (∃ users',
      result r =
        Ok (users',
            match reply with
            | Resolved replies => set_thread_replies (tail replies) msg
            | Rejected _ => msg
            end))
  ∧ repliesFetched (events r) = [(channelId, ts msg)].
Proof.
  cbv zeta. unfold repliesFor, await.
  rewrite try_catch_run, bind_run, perform_run. cbv zeta.
  destruct (getConversationReplies W client channelId (ts msg) None None
              None (world s)).1 as [replies|e] eqn:Hreply; cbn.
  - set (s1 := {| world := _; disk := disk s; dirs := dirs s |}).
    pose proof (lookups_fetch (tail replies) users s1) as Hfetch.
    destruct (settles_foldM (userOfReply client) (tail replies)
                (settles_userOfReply) users s1) as [users' Hu].
    rewrite bind_run, Hu. cbn. split; [by exists users'|].
    unfold repliesFetched in *. cbn.
    rewrite app_nil_r, Hfetch. done.
  - split; [by exists users|done].
Qed.

Lemma settles_expand channelId users msg :
  settles (expand client channelId users msg).
Proof.
  intros s. unfold expand. destruct (isThreadParent msg).
  - destruct (repliesFor_run channelId users msg s) as [[users' H] _].
    eauto.
  - by eexists.
Qed.

Lemma expand_fetches channelId users msg s :
  repliesFetched (events (expand client channelId users msg s))
  = if isThreadParent msg then [(channelId, ts msg)] else [].
Proof.
  unfold expand. destruct (isThreadParent msg); [|done].
  apply repliesFor_run.
Qed.

(** The threads fetched by the whole pass: one per thread parent, in
    the order of the batch. *)
Lemma threads_fetched channelId messages users s :
  repliesFetched
    (events (fetchThreadRepliesForMessages client channelId messages
               users s))
  = List.map (fun m => (channelId, ts m))
      (List.filter isThreadParent messages).
Proof.
  unfold fetchThreadRepliesForMessages.
  destruct (length (List.filter isThreadParent messages) =? 0) eqn:Hn.
  - apply Nat.eqb_eq in Hn.
    by destruct (List.filter isThreadParent messages).
  - rewrite bind_run. cbn.
    destruct (settles_mapAccumM (expand client channelId) messages
                (settles_expand channelId) users s) as [r Hr].
    unfold repliesFetched. rewrite omap_cons. cbv beta iota.
    rewrite (picked_mapAccumM _ _
               (fun m => if isThreadParent m then [(channelId, ts m)]
                         else [])).
    + clear. induction messages as [|m ms IH]; [done|].
      cbn. destruct (isThreadParent m); cbn; by rewrite IH.
    + intros st x s'. split; [apply settles_expand|].
      apply expand_fetches.
Qed.

(** The message at one position after the pass. *)
Lemma expanded_at channelId pre msg post users s :
  isThreadParent msg = true →
  let before := mapAccumM (expand client channelId) pre users s in
  let reply :=
    (getConversationReplies W client channelId (ts msg) None None None
       (world (final before))).1 in
  ∃ users' out,
    result (fetchThreadRepliesForMessages client channelId
              (pre ++ msg :: post) users s) = Ok (users', out)
    ∧ length out = length (pre ++ msg :: post)
    ∧ out !! length pre =
        Some match reply with
             | Resolved replies => set_thread_replies (tail replies) msg
             | Rejected _ => msg
             end.
Proof.
  intros Hparent before reply.
  destruct (mapAccumM_at (expand client channelId) pre msg post users s
              (settles_expand channelId))
    as (st1 & pre' & st2 & x' & st3 & post' & H1 & H2 & H3 & H4 & H5).
  fold before in H1, H3.
  unfold expand in H3. rewrite Hparent in H3.
  destruct (repliesFor_run channelId st1 msg (final before))
    as [[users2 Hx] _].
  fold reply in Hx. rewrite Hx in H3. inversion H3; subst st2 x'.
  exists st3, (pre' ++ match reply with
                       | Resolved replies =>
                           set_thread_replies (tail replies) msg
                       | Rejected _ => msg
                       end :: post').
  unfold fetchThreadRepliesForMessages.
  assert ((length (List.filter isThreadParent (pre ++ msg :: post)) =? 0)
          = false) as ->.
  { apply Nat.eqb_neq. rewrite List.filter_app. cbn. rewrite Hparent.
    rewrite length_app. cbn. lia. }
  rewrite bind_run. cbn. rewrite H4.
  split_and!; [done| |].
  - rewrite !length_app. cbn. lia.
  - rewrite lookup_app_r, H2 by lia. by rewrite Nat.sub_diag.
Qed.




(** The message at a position after the pass, field by field. *)
Lemma expanded_fields channelId pre msg post users s :
  isThreadParent msg = true →
  let before := mapAccumM (expand client channelId) pre users s in
  let reply :=
    (getConversationReplies W client channelId (ts msg) None None None
       (world (final before))).1 in
  ∃ users' out stored,
    result (fetchThreadRepliesForMessages client channelId
              (pre ++ msg :: post) users s) = Ok (users', out)
    ∧ length out = length (pre ++ msg :: post)
    ∧ out !! length pre = Some stored
    ∧ thread_replies stored
      = match reply with
        | Resolved replies => Some (tail replies)
        | Rejected _ => thread_replies msg
        end
    ∧ ts stored = ts msg ∧ thread_ts stored = thread_ts msg
    ∧ user stored = user msg ∧ text stored = text msg
    ∧ reply_count stored = reply_count msg ∧ files stored = files msg
    ∧ transcript stored = transcript msg.
Proof.
  intros Hparent before reply.
  destruct (expanded_at channelId pre msg post users s Hparent)
    as (users' & out & Hout & Hlen & Hat).
  fold before in Hat. fold reply in Hat.
  eexists users', out, _. split_and!; [exact Hout|exact Hlen|exact Hat|..];
    by destruct reply.
Qed.

(** C8.  For a message of the batch whose [reply_count] exceeds 0,
    at any position, the pass fetches the replies of that message's
    thread (one fetch per thread parent, in the order of the batch),
    and the message comes out with the entries returned but the
    first, in the order returned, as its [thread_replies], and with
    its other fields as they were; the remote's answer is the one it
    gives once the messages before have been treated.  A message
    whose fetch is refused keeps the [thread_replies] it had. *)
Theorem thread_replies_stored channelId pre msg post users s n :
  reply_count msg = Some n → (0 < n)%Z →
  let messages := pre ++ msg :: post in
  let before := mapAccumM (expand client channelId) pre users s in
  let reply :=
    (getConversationReplies W client channelId (ts msg) None None None
       (world (final before))).1 in
  let r := fetchThreadRepliesForMessages client channelId messages users s in
  repliesFetched (events r)
    = List.map (fun m => (channelId, ts m))
        (List.filter isThreadParent messages)
  ∧ In (channelId, ts msg) (repliesFetched (events r))
  ∧ ∃ users' out stored,
      result r = Ok (users', out)
      ∧ length out = length messages
      ∧ out !! length pre = Some stored
      ∧ thread_replies stored
        = match reply with
          | Resolved replies => Some (tail replies)
          | Rejected _ => thread_replies msg
          end
      ∧ ts stored = ts msg ∧ thread_ts stored = thread_ts msg
      ∧ user stored = user msg ∧ text stored = text msg
      ∧ reply_count stored = reply_count msg ∧ files stored = files msg
      ∧ transcript stored = transcript msg.
Proof.
  intros Hcount Hn messages before reply r.
  assert (isThreadParent msg = true) as Hparent.
  { unfold isThreadParent. rewrite Hcount. by apply Z.ltb_lt. }
  split; [apply threads_fetched|]. split.
  - subst r. rewrite threads_fetched. apply in_map_iff.
    exists msg. split; [done|]. apply filter_In. split; [|done].
    subst messages. apply in_or_app. right. by left.
  - by apply expanded_fields.
Qed.

End Expansion.

(** The scenario of the specification: the first of three messages has
    two replies; the thread comes back as root, reply, reply, and the
    two replies are stored, in that order. *)
Lemma thread_replies_stored_witness :
  ∃ users' out stored,
    result (fetchThreadRepliesForMessages Scenario.threaded "C1"
              Scenario.batch ∅ Scenario.start) = Ok (users', out)
    ∧ length out = 3
    ∧ out !! 0 = Some stored
    ∧ thread_replies stored
      = Some [Scenario.plain "150.000001" None;
              Scenario.plain "160.000001" None]
    ∧ ts stored = "100.000001"
    ∧ reply_count stored = Some 2%Z.
Proof.
  destruct (thread_replies_stored Scenario.threaded "C1" []
              (Scenario.plain "100.000001" (Some 2%Z))
              [Scenario.plain "200.000001" None;
               Scenario.plain "300.000001" None]
              ∅ Scenario.start 2%Z eq_refl eq_refl)
    as (_ & _ & users' & out & stored & H1 & H2 & H3 & H4 & H5 & _ & _ & _
        & H6 & _).
  exists users', out, stored. split_and!; [exact H1|exact H2|exact H3|..].
  - exact H4.
  - exact H5.
  - exact H6.
Defined.

End ThreadFacts.

(** * Transcripts *)

Module TranscriptFacts.
Import Slack Effects EffectsFacts Conversations.

Section Transcripts.
Context {W : Type} (client : SlackClient W).








(** ** The transcript of a message whose files are served

    [content] gives what the remote serves for the transcripts of one
    message, whenever it is asked. *)



End Transcripts.
End TranscriptFacts.

(** * The batch download *)

Module FilesFacts.
Import Slack Effects EffectsFacts Files.

(** ** File names *)












(** ** The candidates are distinct *)







(** ** One file *)

Section Batch.
Context {W : Type} (host : Host W) (client : SlackClient W).

Lemma resolve_step fuel outputDir fileName finalPath counter s :
  resolveFinalPath host (S fuel) outputDir fileName finalPath counter s
  = if occupied s finalPath then
      resolveFinalPath host fuel outputDir fileName
        (path_join W host outputDir (suffixed fileName counter))
        (S counter) s
    else Build_Run (Ok finalPath) s [].
Proof.
  unfold resolveFinalPath at 1. fold (resolveFinalPath host).
  unfold bind, existsSync, ret.
  destruct (occupied s finalPath); [|done].
  by destruct (resolveFinalPath host fuel _ _ _ _ s).
Qed.

(** The search for a free path changes nothing; the path it returns
    is free. *)
Lemma resolve_run fuel outputDir fileName finalPath counter s :
  let r := resolveFinalPath host fuel outputDir fileName finalPath
             counter s in
  final r = s ∧ events r = []
  ∧ match result r with
    | Ok path => occupied s path = false
    | Diverged => True
    | _ => False
    end.
Proof.
  revert finalPath counter.
  induction fuel as [|fuel IH]; intros finalPath counter; [done|].
  cbv zeta. rewrite resolve_step.
  destruct (occupied s finalPath) eqn:Htaken; [apply IH|done].
Qed.

(** The run of one iteration of the batch.  A download that the
    remote refuses and a write that the host refuses end in the same
    way: the failure is announced and counted, and no file counts as
    written; the refused write may leave a part of the file. *)
Lemma downloadOne_run fuel outputDir counts file s :
  let r := downloadOne host client fuel outputDir counts file s in
  match liveUrl file with
  | None =>
      result r = Ok (skip counts) ∧ final r = s
      ∧ calls (events r) = [] ∧ written (events r) = []
      ∧ refusals (events r) = [] ∧ failures (events r) = []
  | Some url =>
      let fileName := fileNameOf file in
      match result (resolveFinalPath host fuel outputDir fileName
                      (path_join W host outputDir fileName) 1 s) with
      | Ok path =>
          occupied s path = false
          ∧ calls (events r) = [FetchFileBinary url]
          ∧ match fetchFileBinary W client url (world s) with
            | (Resolved data, w') =>
                match write_error W host w' path with
                | None =>
                    result r = Ok (succeed counts)
                    ∧ final r = {| world := w';
                                   disk := <[path := data]> (disk s);
                                   dirs := dirs s |}
                    ∧ written (events r) = [path]
                    ∧ refusals (events r) = []
                    ∧ failures (events r) = []
                | Some e =>
                    result r = Ok (fail counts)
                    ∧ final r = {| world := w';
                                   disk := left_behind host w' path data
                                             (disk s);
                                   dirs := dirs s |}
                    ∧ written (events r) = []
                    ∧ refusals (events r) = []
                    ∧ failures (events r)
                      = ["Failed to download " +:+ fileName +:+ ": " +:+ e]
                end
            | (Rejected e, w') =>
                result r = Ok (fail counts)
                ∧ final r = {| world := w'; disk := disk s;
                               dirs := dirs s |}
                ∧ written (events r) = []
                ∧ refusals (events r) = [e]
                ∧ failures (events r)
                  = ["Failed to download " +:+ fileName +:+ ": " +:+ e]
            end
      | Diverged =>
          result r = Diverged ∧ final r = s ∧ calls (events r) = []
          ∧ written (events r) = [] ∧ refusals (events r) = []
          ∧ failures (events r) = []
      | _ => False
      end
  end.
Proof.
  cbv zeta. unfold downloadOne, liveUrl.
  destruct (downloadUrlOf file) as [url|]; [|done].
  destruct (is_tombstone file); [done|].
  rewrite bind_run.
  pose proof (resolve_run fuel outputDir (fileNameOf file)
                (path_join W host outputDir (fileNameOf file)) 1 s)
    as (Hfinal & Hevents & Hres).
  cbv zeta in Hfinal, Hevents, Hres.
  destruct (result (resolveFinalPath host fuel outputDir _ _ 1 s))
    as [path| | |] eqn:Hpath; try done.
  - rewrite Hfinal, Hevents. cbn.
    unfold try_catch, bind, await, perform, writeFileSync, emit, ret.
    assert (bool_decide (path ∈ dirs s) = false) as Hdir.
    { unfold occupied in Hres. by apply orb_false_iff in Hres as [_ ?]. }
    destruct (fetchFileBinary W client url (world s)) as [[data|e] w'];
      cbn; rewrite ?Hdir; [|by read_trace].
    destruct (write_error W host w' path) as [e|]; by read_trace.
  - by rewrite Hfinal, Hevents.
Qed.

(** ** The counters *)

Lemma plus_zero counts : plus counts zero = counts.
Proof.
  destruct counts. unfold plus, zero. cbn. by rewrite !Nat.add_0_r.
Qed.

Lemma plus_assoc a b c : plus (plus a b) c = plus a (plus b c).
Proof. unfold plus. cbn. by rewrite !Nat.add_assoc. Qed.

Lemma skip_plus counts : skip counts = plus counts (skip zero).
Proof.
  destruct counts. unfold plus, skip, zero. cbn.
  by rewrite !Nat.add_0_r, Nat.add_1_r.
Qed.

Lemma succeed_plus counts : succeed counts = plus counts (succeed zero).
Proof.
  destruct counts. unfold plus, succeed, zero. cbn.
  by rewrite !Nat.add_0_r, Nat.add_1_r.
Qed.

Lemma fail_plus counts : fail counts = plus counts (fail zero).
Proof.
  destruct counts. unfold plus, fail, zero. cbn.
  by rewrite !Nat.add_0_r, Nat.add_1_r.
Qed.

(** An iteration does the same whatever the counters are, and adds
    one to one of them. *)
Lemma downloadOne_uniform fuel outputDir file s :
  ∃ delta s' es,
    ∀ counts,
      downloadOne host client fuel outputDir counts file s
      = Build_Run (added delta counts) s' es.
Proof.
  unfold downloadOne.
  destruct (downloadUrlOf file) as [url|].
  2:{ eexists (Some (skip zero)), _, _. intros counts. cbn.
      by rewrite skip_plus. }
  destruct (is_tombstone file).
  { eexists (Some (skip zero)), _, _. intros counts. cbn.
    by rewrite skip_plus. }
  pose proof (resolve_run fuel outputDir (fileNameOf file)
                (path_join W host outputDir (fileNameOf file)) 1 s)
    as (Hfinal & Hevents & Hres).
  cbv zeta in Hfinal, Hevents, Hres.
  destruct (resolveFinalPath host fuel outputDir _ _ 1 s)
    as [[path| | |] s1 es1] eqn:Hpath; cbn in *; try done; subst.
  - assert (bool_decide (path ∈ dirs s) = false) as Hdir.
    { unfold occupied in Hres. by apply orb_false_iff in Hres as [_ ?]. }
    destruct (fetchFileBinary W client url (world s)) as [[data|e] w']
      eqn:Hfetch.
    + destruct (write_error W host w' path) as [e|] eqn:Hwrite.
      * eexists (Some (fail zero)), _, _. intros counts.
        unfold bind, try_catch, await, perform, writeFileSync, emit, ret.
        rewrite Hpath. cbn. rewrite Hfetch. cbn. rewrite Hdir, Hwrite.
        by rewrite fail_plus.
      * eexists (Some (succeed zero)), _, _. intros counts.
        unfold bind, try_catch, await, perform, writeFileSync, emit, ret.
        rewrite Hpath. cbn. rewrite Hfetch. cbn. rewrite Hdir, Hwrite.
        by rewrite succeed_plus.
    + eexists (Some (fail zero)), _, _. intros counts.
      unfold bind, try_catch, await, perform, writeFileSync, emit, ret.
      rewrite Hpath. cbn. rewrite Hfetch. cbn.
      by rewrite fail_plus.
  - eexists None, _, _. intros counts. unfold bind. by rewrite Hpath.
Qed.

Lemma batch_uniform fuel outputDir files s :
  ∃ delta s' es,
    ∀ counts,
      foldM (downloadOne host client fuel outputDir) files counts s
      = Build_Run (added delta counts) s' es.
Proof.
  revert s. induction files as [|file rest IH]; intros s.
  { exists (Some zero), s, []. intros counts. cbn.
    by rewrite plus_zero. }
  destruct (downloadOne_uniform fuel outputDir file s)
    as (d1 & s1 & es1 & H1).
  destruct d1 as [d1|].
  - destruct (IH s1) as (d2 & s2 & es2 & H2).
    exists (match d2 with Some d => Some (plus d1 d) | None => None end),
      s2, (es1 ++ es2).
    intros counts. cbn [foldM]. unfold bind. rewrite H1. cbn.
    rewrite H2. destruct d2; cbn; by rewrite ?plus_assoc.
  - exists None, s1, es1. intros counts. cbn [foldM]. unfold bind.
    by rewrite H1.
Qed.

Lemma plus_skip counts delta :
  plus (skip counts) delta = skip (plus counts delta).
Proof. unfold plus, skip. cbn. f_equal. Qed.

Lemma tombstone_dead file :
  mode file = Some "tombstone" → liveUrl file = None.
Proof.
  intros Hmode. unfold liveUrl, is_tombstone.
  destruct (downloadUrlOf file); [|done].
  by rewrite bool_decide_eq_true_2.
Qed.

(** C4.  A file whose [mode] is [tombstone] is never downloaded: its
    iteration of the batch issues no remote call, writes no file,
    leaves the disk as it is and adds one to the skipped counter,
    and to no other.  In a batch, the run with the file and the run
    without it issue the same calls, write the same files and leave
    the same disk, and the counters differ only by that one
    skip. *)
Theorem tombstone_skipped file :
  mode file = Some "tombstone" →
  (∀ fuel outputDir counts s,
      let r := downloadOne host client fuel outputDir counts file s in
      result r = Ok (skip counts) ∧ final r = s
      ∧ calls (events r) = [] ∧ written (events r) = [])
  ∧ (∀ fuel outputDir pre post counts s,
        let step := downloadOne host client fuel outputDir in
        let with_it := foldM step (pre ++ file :: post) counts s in
        let without := foldM step (pre ++ post) counts s in
        final with_it = final without
        ∧ calls (events with_it) = calls (events without)
        ∧ written (events with_it) = written (events without)
        ∧ match result with_it, result without with
          | Ok a, Ok b => a = skip b
          | Diverged, Diverged => True
          | _, _ => False
          end).
Proof.
  intros Hmode. apply tombstone_dead in Hmode.
  assert (∀ fuel outputDir counts s,
             let r := downloadOne host client fuel outputDir counts file s in
             result r = Ok (skip counts) ∧ final r = s
             ∧ calls (events r) = [] ∧ written (events r) = []) as Hone.
  { intros fuel outputDir counts s.
    pose proof (downloadOne_run fuel outputDir counts file s) as Hrun.
    cbv zeta in Hrun. rewrite Hmode in Hrun.
    destruct Hrun as (? & ? & ? & ? & _). done. }
  split; [exact Hone|].
  intros fuel outputDir pre post counts s step with_it without.
  subst with_it without. rewrite !foldM_app.
  destruct (batch_uniform fuel outputDir pre s) as (d1 & s1 & es1 & H1).
  fold step in H1. rewrite !(bind_run (foldM step pre counts)), !H1.
  cbn [result final events].
  destruct d1 as [d1|]; cbn [added result final events]; [|done].
  cbn [foldM]. rewrite bind_run.
  destruct (Hone fuel outputDir (plus counts d1) s1)
    as (Hres & Hfinal & Hcalls & Hwritten).
  fold step in Hres, Hfinal, Hcalls, Hwritten.
  rewrite Hres, Hfinal.
  destruct (batch_uniform fuel outputDir post s1) as (d2 & s2 & es2 & H2).
  fold step in H2. rewrite !H2. cbn.
  split_and!; [done| | |].
  - by rewrite !calls_app, Hcalls.
  - by rewrite !written_app, Hwritten.
  - destruct d2; cbn; [|done]. apply plus_skip.
Qed.

(** The counters of a batch that returns: one download per file
    written, one failure per failure announced, of which there is one
    for every refusal of the remote, and one skip per file that is not
    live; and a download was asked for every live file, in the order
    of the batch. *)
Lemma batch_counts fuel outputDir files :
  ∀ counts s counts',
    let r := foldM (downloadOne host client fuel outputDir) files
               counts s in
    result r = Ok counts' →
    calls (events r) = FetchFileBinary <$> omap liveUrl files
    ∧ length (refusals (events r)) ≤ length (failures (events r))
    ∧ counts'
      = plus counts
          {| downloadedCount := length (written (events r));
             failedCount := length (failures (events r));
             skippedCount :=
               length files - length (omap liveUrl files) |}.
Proof.
  induction files as [|file rest IH]; intros counts s counts' r Hres.
  { subst r. cbn in *. inversion Hres; subst.
    split_and!; [done|done|]. symmetry. apply plus_zero. }
  subst r. cbn [foldM] in *. rewrite bind_run in *.
  pose proof (downloadOne_run fuel outputDir counts file s) as Hrun.
  cbv zeta in Hrun.
  set (r1 := downloadOne host client fuel outputDir counts file s) in *.
  assert (length (omap liveUrl rest) ≤ length rest) as Hle.
  { clear. induction rest as [|f fs IH]; [done|].
    rewrite omap_cons. destruct (liveUrl f); cbn; lia. }
  destruct (result r1) as [counts1| | |] eqn:Hr1; try done.
  cbn in Hres. cbn [events].
  destruct (IH counts1 (final r1) counts' Hres)
    as (IHcalls & IHle & IHcounts).
  rewrite calls_app, written_app, refusals_app, failures_app, !length_app,
    IHcalls.
  rewrite omap_cons.
  destruct (liveUrl file) as [url|].
  - destruct (result (resolveFinalPath host fuel outputDir _ _ 1 s))
      as [path| | |]; try done.
    2:{ by destruct Hrun as (Hd & _). }
    destruct Hrun as (_ & Hcalls & Hfetch). rewrite Hcalls.
    split; [done|].
    destruct (fetchFileBinary W client url (world s)) as [[data|e] w'].
    + destruct (write_error W host w' path) as [e|];
        destruct Hfetch as (Hok & _ & -> & -> & ->); rewrite IHcounts;
        injection Hok as ->; (split; [cbn; lia|]);
        unfold plus, succeed, fail; cbn; f_equal; lia.
    + destruct Hfetch as (Hok & _ & -> & -> & ->); rewrite IHcounts;
        injection Hok as ->; (split; [cbn; lia|]);
        unfold plus, succeed, fail; cbn; f_equal; lia.
  - destruct Hrun as (Hok & _ & -> & -> & -> & ->). rewrite IHcounts.
    injection Hok as ->.
    split_and!; [done|cbn; lia|]. unfold plus, skip. cbn.
    f_equal; lia.
Qed.

(** The summary: it returns, writes no file, names the number of
    downloads and, when there are any, the number of failures. *)
Lemma report_run outputDir counts s :
  let r := report (W:=W) outputDir counts s in
  result r = Ok tt ∧ written (events r) = []
  ∧ PrintSuccess ("Downloaded " +:+ JS.decimal (downloadedCount counts)
                  +:+ " files to " +:+ outputDir) ∈ events r
  ∧ (0 < failedCount counts →
     PrintWarning (JS.decimal (failedCount counts)
                   +:+ " files failed to download") ∈ events r).
Proof.
  cbv zeta. unfold report, bind, emit, ret.
  destruct (Nat.ltb_spec 0 (failedCount counts)),
    (0 <? skippedCount counts)%nat; cbn;
    (split_and!; [done|done| |]); try (intros; lia);
    intros; apply list_elem_of_In; cbn; auto.
Qed.

(** ** Paths claimed by a batch *)



Lemma occupied_world (s : Machine W) (w : W) other :
  occupied {| world := w; disk := disk s; dirs := dirs s |} other
  = occupied s other.
Proof. done. Qed.



(** ** The search for a free path ends *)

Lemma occupied_places (s : Machine W) path :
  occupied s path = true ↔ path ∈ places s.
Proof.
  unfold occupied, places. rewrite orb_true_iff, !bool_decide_eq_true.
  rewrite elem_of_union, elem_of_dom. done.
Qed.


(** A search that runs out of fuel has found every candidate it
    tried occupied. *)
Lemma diverged_occupied outputDir fileName s fuel :
  ∀ i,
    result (resolveFinalPath host fuel outputDir fileName
              (candidate host outputDir fileName i) (S i) s) = Diverged →
    ∀ k, i ≤ k < i + fuel →
         occupied s (candidate host outputDir fileName k) = true.
Proof.
  induction fuel as [|fuel IH]; intros i Hdiv k Hk; [lia|].
  rewrite resolve_step in Hdiv.
  destruct (occupied s (candidate host outputDir fileName i)) eqn:Hi;
    [|done].
  destruct (decide (k = i)) as [->|Hne]; [done|].
  apply (IH (S i)); [exact Hdiv|lia].
Qed.

Lemma occupied_bound outputDir fileName (s : Machine W) n :
  Inj (=) (=) (candidate host outputDir fileName) →
  (∀ k, k < n → occupied s (candidate host outputDir fileName k) = true) →
  n ≤ size (places s).
Proof.
  intros Hcand Hocc.
  set (tried := candidate host outputDir fileName <$> seq 0 n).
  assert (NoDup tried) as Hnd.
  { subst tried. apply NoDup_fmap; [done|apply NoDup_seq]. }
  assert (length tried = n) as Hlen.
  { subst tried. by rewrite length_fmap, length_seq. }
  rewrite <- Hlen, <- (size_list_to_set (C:=gset string)) by done.
  apply subseteq_size. intros p Hp.
  apply elem_of_list_to_set, list_elem_of_fmap in Hp as (k & -> & Hk).
  apply elem_of_seq in Hk. apply occupied_places, Hocc. lia.
Qed.

Lemma resolve_terminates fuel outputDir fileName s :
  Inj (=) (=) (candidate host outputDir fileName) →
  size (places s) < fuel →
  result (resolveFinalPath host fuel outputDir fileName
            (path_join W host outputDir fileName) 1 s) ≠ Diverged.
Proof.
  intros Hinj Hfuel Hdiv.
  pose proof (diverged_occupied outputDir fileName s fuel 0 Hdiv) as Hocc.
  assert (fuel ≤ size (places s)); [|lia].
  apply (occupied_bound outputDir fileName); [done|].
  intros k Hk. apply Hocc. lia.
Qed.

Lemma places_insert (s : Machine W) (w : W) path data :
  size (places {| world := w; disk := <[path := data]> (disk s);
                  dirs := dirs s |}) ≤ S (size (places s)).
Proof.
  unfold places. cbn. rewrite dom_insert_L, <- (assoc_L (∪)).
  rewrite size_union_alt, size_singleton.
  assert (size ((dom (disk s) ∪ dirs s) ∖ {[path]})
          ≤ size (dom (disk s) ∪ dirs s)); [|lia].
  apply subseteq_size. intros x [Hx _]%elem_of_difference. exact Hx.
Qed.

Lemma places_left_behind (s : Machine W) (w : W) path data :
  size (places {| world := w; disk := left_behind host w path data (disk s);
                  dirs := dirs s |}) ≤ S (size (places s)).
Proof.
  unfold left_behind.
  destruct (write_debris W host w path data) as [part|];
    [apply places_insert|].
  unfold places. cbn. lia.
Qed.

(** With enough fuel for the files on the disk and the files of the
    batch, every iteration ends: the batch returns its counters. *)
Lemma batch_terminates fuel outputDir files :
  Forall (fun file =>
            Inj (=) (=) (candidate host outputDir (fileNameOf file))) files →
  ∀ counts s,
    size (places s) + length files < fuel →
    ∃ counts',
      result (foldM (downloadOne host client fuel outputDir) files
                counts s) = Ok counts'.
Proof.
  induction 1 as [|file rest Hinj Hothers IH]; intros counts s Hfuel.
  { by eexists. }
  cbn [foldM]. rewrite bind_run. cbn in Hfuel.
  pose proof (downloadOne_run fuel outputDir counts file s) as Hrun.
  cbv zeta in Hrun.
  set (r1 := downloadOne host client fuel outputDir counts file s) in *.
  assert (∃ counts1, result r1 = Ok counts1
                     ∧ size (places (final r1)) ≤ S (size (places s)))
    as (counts1 & Hres & Hsize).
  { destruct (liveUrl file) as [url|].
    2:{ destruct Hrun as (-> & -> & _). eexists. split; [done|lia]. }
    pose proof (resolve_terminates fuel outputDir (fileNameOf file) s
                  Hinj) as Hterm.
    destruct (result (resolveFinalPath host fuel outputDir _ _ 1 s))
      as [path| | |]; try done.
    2:{ exfalso. apply Hterm; [lia|done]. }
    destruct Hrun as (_ & _ & Hfetch).
    destruct (fetchFileBinary W client url (world s)) as [[data|e] w'].
    - destruct (write_error W host w' path) as [e|].
      { destruct Hfetch as (-> & -> & _). eexists. split; [done|].
        apply places_left_behind. }
      destruct Hfetch as (-> & -> & _). eexists. split; [done|].
      apply places_insert.
    - destruct Hfetch as (-> & -> & _). eexists. split; [done|].
      unfold places. cbn. lia. }
  rewrite Hres. cbn.
  destruct (IH counts1 (final r1)) as [counts' Hrest]; [lia|].
  exists counts'. by rewrite Hrest.
Qed.

(** ** Files with the same name *)






End Batch.

(** A deleted file between two copies of a report: the run issues the
    two downloads of the report and counts one skip. *)
Lemma tombstone_skipped_witness :
  result (downloadOne Scenario.host Scenario.remote 3 "out" zero
            Scenario.deleted Scenario.start) = Ok (skip zero)
  ∧ calls (events (downloadOne Scenario.host Scenario.remote 3 "out" zero
                     Scenario.deleted Scenario.start)) = []
  ∧ result (foldM (downloadOne Scenario.host Scenario.remote 3 "out")
              [Scenario.report; Scenario.deleted; Scenario.report] zero
              Scenario.start)
    = Ok {| downloadedCount := 2; failedCount := 0; skippedCount := 1 |}.
Proof.
  destruct (tombstone_skipped Scenario.host Scenario.remote Scenario.deleted
              eq_refl) as [Hone Hbatch].
  destruct (Hone 3 "out" zero Scenario.start) as (H1 & _ & H2 & _).
  split; [exact H1|]. split; [exact H2|].
  destruct (Hbatch 3 "out" [Scenario.report] [Scenario.report] zero
              Scenario.start) as (_ & _ & _ & H3).
  vm_compute in H3. vm_compute. destruct H3. reflexivity.
Defined.






End FilesFacts.

(** * Unread messages and the read watermark *)

Module UnreadFacts.
Import Slack Effects EffectsFacts Conversations.

(** ** The order of timestamps *)

Lemma gt_leb a b : JS.gt a b = negb (String.leb a b).
Proof. unfold JS.gt, String.leb. by destruct (String.compare a b). Qed.

Lemma gt_false a b : JS.gt a b = false ↔ (a ≤ b)%string.
Proof.
  rewrite gt_leb. unfold String.le.
  destruct (String.leb a b); simpl; split; try done.
Qed.

Lemma gt_true a b : JS.gt a b = true ↔ ¬ (a ≤ b)%string.
Proof.
  rewrite <- gt_false. destruct (JS.gt a b); split; done.
Qed.




(** ** One conversation *)

Section Loop.
Context {W : Type} (client : SlackClient W).

Lemma quiet_nil : quiet [].
Proof. done. Qed.

Lemma quiet_app a b : quiet a → quiet b → quiet (a ++ b).
Proof.
  intros [Ha1 Ha2] [Hb1 Hb2]. split.
  - unfold marks in *. by rewrite omap_app, Ha1, Hb1.
  - intros c. unfold shownIn in *. rewrite omap_app.
    specialize (Ha2 c). specialize (Hb2 c). cbv beta in *.
    by rewrite Ha2, Hb2.
Qed.

Lemma settles_lookupUser users userId :
  settles (lookupUser client users userId).
Proof.
  unfold lookupUser. destruct (_ ≫= _); [apply settles_ret|].
  apply settles_try_catch.
  - apply catchable_bind; [apply catchable_perform|].
    intros found. apply settles_catchable, settles_ret.
  - intros e. apply settles_ret.
Qed.

Lemma quiet_lookupUser users userId s :
  quiet (events (lookupUser client users userId s)).
Proof.
  unfold lookupUser. destruct (_ ≫= _); [done|].
  unfold try_catch, bind, await, perform, ret.
  by destruct (getUserInfo W client userId (world s)) as [[found|e] w'].
Qed.

(** The loop that prints the messages of a conversation. *)
Lemma show_run channel messages (s : Machine W) :
  foldM (fun _ msg => emit (ShowMessage channel msg)) messages tt s
  = Build_Run (Ok tt) s (List.map (ShowMessage channel) messages).
Proof.
  revert s. induction messages as [|m ms IH]; intros s; [done|].
  simpl. unfold bind, emit. by rewrite IH.
Qed.

Lemma shownIn_show channel c messages :
  shownIn c (List.map (ShowMessage channel) messages)
  = if String.eqb channel c then messages else [].
Proof.
  unfold shownIn. destruct (String.eqb channel c) eqn:E;
    induction messages as [|m ms IH]; [done| |done|].
  - rewrite map_cons, omap_cons, E, IH. done.
  - rewrite map_cons, omap_cons, E, IH. done.
Qed.

Lemma marks_show channel messages :
  marks (List.map (ShowMessage channel) messages) = [].
Proof. unfold marks. by induction messages. Qed.

(** One iteration of the loop over the conversations. *)
Lemma unreadOf_run st channel s :
  let r := unreadOf client st channel s in
  let id := ch_id channel in
  match getConversationInfo W client id (world s) with
  | (Rejected _, _) => (∃ e, result r = Thrown e) ∧ quiet (events r)
  | (Resolved last_read, w1) =>
      let T := lastReadOf last_read in
      match getConversationHistory W client id
              (Some (Z.min (unread_count channel + 5) 100)) (Some T)
              None w1 with
      | (Rejected _, _) => (∃ e, result r = Thrown e) ∧ quiet (events r)
      | (Resolved fetched, _) =>
          let messages :=
            List.filter (fun m => JS.gt (ts m) T) fetched in
          marks (events r) = []
          ∧ (∀ c, shownIn c (events r)
                  = if String.eqb id c then rev messages else [])
          ∧ (∃ st',
              result r = Ok st'
              ∧ latestTimestamps st' =
                  match messages with
                  | [] => latestTimestamps st
                  | _ => JS.map_set id (latestOf messages)
                           (latestTimestamps st)
                  end)
          ∧ ∃ lookups,
              calls (events r) =
                GetConversationInfo id
                :: GetConversationHistory id
                     (Some (Z.min (unread_count channel + 5) 100))
                     (Some T) None
                :: lookups
      end
  end.
Proof.
  cbv zeta. unfold unreadOf, await.
  rewrite bind_run. cbn. rewrite bind_run, perform_run. cbn.
  destruct (getConversationInfo W client (ch_id channel) (world s))
    as [[last_read|e] w1]; cbn; [|split; [by eexists|by split]].
  rewrite bind_run, perform_run. cbn.
  destruct (getConversationHistory W client (ch_id channel) _ _ _ w1)
    as [[fetched|e] w2]; cbn; [|split; [by eexists|by split]].
  set (messages := List.filter _ fetched).
  destruct messages as [|m ms] eqn:Hmessages.
  { cbn. split_and!; [done| |by eauto|by eexists].
    intros c. by destruct (String.eqb _ _). }
  rewrite <- Hmessages.
  assert ((length messages =? 0) = false) as ->.
  { rewrite Hmessages. done. }
  rewrite bind_run.
  set (s2 := {| world := w2; disk := disk s; dirs := dirs s |}).
  set (seen := fold_left _ messages (users st)).
  destruct (settles_foldM (lookupUser client) (userIdsOf messages)
              settles_lookupUser seen s2) as [users' Hu].
  pose proof (preserved_foldM quiet quiet_nil quiet_app
                (lookupUser client) (userIdsOf messages)
                quiet_lookupUser seen s2) as [Hq1 Hq2].
  rewrite Hu. cbn. rewrite bind_run, show_run. cbn.
  split_and!.
  - read_trace. by rewrite Hq1, marks_show.
  - intros c. read_trace. rewrite Hq2, shownIn_show. cbn.
    destruct (String.eqb (ch_id channel) c); by rewrite ?app_nil_r.
  - by eexists.
  - read_trace. by eexists.
Qed.



(** ** The loop over the conversations *)


(** C2.  In the loop of [conversations unread --show], for a
    conversation whose [last_read] is [T] (["0"] when the remote
    reports none), the history is fetched with [oldest = T] and the
    messages shown are exactly the fetched messages whose [ts] is
    strictly after [T], oldest first: no message with [ts <= T] is
    shown, whatever the remote returns. *)
Theorem strict_after_filter st channel s last_read w1 fetched w2 :
  let id := ch_id channel in
  let T := lastReadOf last_read in
  let limit := Z.min (unread_count channel + 5) 100 in
  getConversationInfo W client id (world s) = (Resolved last_read, w1) →
  getConversationHistory W client id (Some limit) (Some T) None w1
    = (Resolved fetched, w2) →
  let r := unreadOf client st channel s in
  let shown := shownIn id (events r) in
  shown = rev (List.filter (fun m => JS.gt (ts m) T) fetched)
  ∧ (∀ m, In m shown ↔ In m fetched ∧ JS.gt (ts m) T = true)
  ∧ (∀ m, In m shown → ¬ (ts m ≤ T)%string)
  ∧ In (GetConversationHistory id (Some limit) (Some T) None)
      (calls (events r))
  ∧ (∀ t, last_read = Some t → t ≠ EmptyString → T = t).
Proof.
  intros id T limit Hinfo Hhistory r shown.
  pose proof (unreadOf_run st channel s) as Hrun. cbv zeta in Hrun.
  fold id in Hrun. rewrite Hinfo in Hrun. fold T limit in Hrun.
  rewrite Hhistory in Hrun.
  destruct Hrun as (_ & Hshown & _ & lookups & Hcalls).
  assert (shown = rev (List.filter (fun m => JS.gt (ts m) T) fetched))
    as Heq.
  { subst shown r. rewrite Hshown, String.eqb_refl. done. }
  assert (∀ m, In m shown ↔ In m fetched ∧ JS.gt (ts m) T = true) as Hiff.
  { intros m. rewrite Heq, <- in_rev. apply filter_In. }
  split_and!; [done|done| | |].
  - intros m Hm. apply gt_true. by apply Hiff.
  - subst r. rewrite Hcalls. right. by left.
  - intros t -> Ht. subst T. unfold lastReadOf, present.
    by destruct t.
Qed.

(** ** Marking *)

Lemma markOne_run entry s :
  result (markOne client tt entry s) = Ok tt
  ∧ marks (events (markOne client tt entry s)) = [entry]
  ∧ ∀ c, shownIn c (events (markOne client tt entry s)) = [].
Proof.
  unfold markOne, try_catch, await, perform, ret.
  destruct (markConversation W client entry.1 entry.2 (world s))
    as [[[]|e] w']; cbn; by destruct entry.
Qed.

(** No iteration of the loop over the conversations marks anything. *)
Lemma unreadOf_marks_nothing st channel s :
  marks (events (unreadOf client st channel s)) = [].
Proof.
  pose proof (unreadOf_run st channel s) as H.
  cbv zeta in H.
  destruct (getConversationInfo W client (ch_id channel) (world s))
    as [[last_read|e] w1].
  2:{ by destruct H as [_ [Hm _]]. }
  destruct (getConversationHistory W client (ch_id channel) _ _ _ w1)
    as [[fetched|e] w2].
  - by destruct H as [Hm _].
  - by destruct H as [_ [Hm _]].
Qed.

Lemma loop_marks_nothing channels st s :
  marks (events (foldM (unreadOf client) channels st s)) = [].
Proof.
  apply (preserved_foldM (fun es => marks es = [])).
  - done.
  - intros a b Ha Hb. by rewrite marks_app, Ha, Hb.
  - intros b x s'. apply unreadOf_marks_nothing.
Qed.


Lemma mark_loop stamps s :
  let r := foldM (markOne client) stamps tt s in
  result r = Ok tt ∧ marks (events r) = stamps
  ∧ ∀ c, shownIn c (events r) = [].
Proof.
  revert s. induction stamps as [|entry rest IH]; intros s; [done|].
  cbn [foldM]. cbv zeta. rewrite bind_run.
  destruct (markOne_run entry s) as (Hres & Hmarks & Hshown).
  rewrite Hres. cbn.
  destruct (IH (final (markOne client tt entry s))) as (IH1 & IH2 & IH3).
  split_and!; [done| |].
  - by rewrite marks_app, Hmarks, IH2.
  - intros c. by rewrite shownIn_app, Hshown, IH3.
Qed.

Lemma showUnread_completes options channels s st :
  result (foldM (unreadOf client) channels
            {| users := ∅; totalMessagesShown := 0;
               latestTimestamps := [] |} s) = Ok st →
  result (showUnread client options channels s) = Ok tt.
Proof.
  intros Hloop. unfold showUnread. rewrite bind_run, Hloop.
  cbv beta iota.
  set (s1 := final _).
  destruct (markRead options && (0 <? length (latestTimestamps st))%nat).
  - rewrite !bind_run. cbn.
    destruct (mark_loop (latestTimestamps st) s1) as (Hm & _).
    cbv zeta in Hm. rewrite Hm. cbn.
    by destruct (totalMessagesShown st =? 0)%nat.
  - rewrite !bind_run. cbn.
    by destruct (totalMessagesShown st =? 0)%nat.
Qed.



(** ** The command *)

Lemma insertByUnread_perm ch sorted :
  insertByUnread ch sorted ≡ₚ ch :: sorted.
Proof.
  induction sorted as [|other rest IH]; simpl; [done|].
  destruct (unread_count ch <? unread_count other)%Z; [|done].
  rewrite IH. apply Permutation_swap.
Qed.

Lemma sortByUnread_perm chs : sortByUnread chs ≡ₚ chs.
Proof.
  unfold sortByUnread. induction chs as [|ch rest IH]; simpl; [done|].
  by rewrite insertByUnread_perm, IH.
Qed.





End Loop.




(** The history of [A] holds the message at the watermark; the two
    later messages are shown, the older one first. *)
Lemma strict_after_filter_witness :
  shownIn "A"
    (events (unreadOf (Scenario.inbox (Resolved tt))
               {| users := ∅; totalMessagesShown := 0;
                  latestTimestamps := [] |}
               Scenario.unreadA Scenario.start))
  = [Scenario.plain "101.000000" None; Scenario.plain "105.000000" None].
Proof.
  exact (proj1 (strict_after_filter (Scenario.inbox (Resolved tt))
                  {| users := ∅; totalMessagesShown := 0;
                     latestTimestamps := [] |}
                  Scenario.unreadA Scenario.start (Some "100.000000") tt
                  Scenario.historyA tt eq_refl eq_refl)).
Defined.

End UnreadFacts.

(** * Failures inside the loops *)

Module IsolationFacts.
Import Slack Effects EffectsFacts.
Import Files Conversations.

Section Loops.
Context {W : Type} (host : Host W) (client : SlackClient W).

(** ** The commands around the loops *)



(** The loop of [download-all] and its summary: the summary counts
    the files written and, when there are any, the failures. *)
Lemma deliver_completes fuel outputDir files s :
  Forall (fun file =>
            Inj (=) (=) (candidate host outputDir (fileNameOf file))) files →
  size (places s) + length files < fuel →
  let r := deliver host client fuel outputDir files s in
  result r = Ok tt
  ∧ (files ≠ [] →
     PrintSuccess ("Downloaded "
                   +:+ JS.decimal (length (written (events r)))
                   +:+ " files to " +:+ outputDir) ∈ events r
     ∧ (failures (events r) ≠ [] →
        PrintWarning (JS.decimal (length (failures (events r)))
                      +:+ " files failed to download") ∈ events r)).
Proof.
  intros Hinj Hfuel. cbv zeta. unfold deliver.
  destruct files as [|file rest]; [done|]. revert Hfuel Hinj.
  set (files := file :: rest) in *.
  change (length files =? 0)%nat with false. cbv iota.
  clearbody files. intros Hfuel Hinj.
  destruct (FilesFacts.batch_terminates host client fuel outputDir files
              Hinj zero s Hfuel) as [counts Hloop].
  pose proof (FilesFacts.batch_counts host client fuel outputDir files
                zero s counts Hloop) as (_ & _ & Hcounts).
  cbv zeta in Hcounts.
  set (loop := foldM (downloadOne host client fuel outputDir) files zero)
    in *.
  destruct (FilesFacts.report_run (W:=W) outputDir counts (final (loop s)))
    as (Hres & Hwritten & Hline & Hwarn).
  cbv zeta in Hres, Hwritten, Hline, Hwarn.
  assert (failures (events (report outputDir counts (final (loop s)))) = [])
    as Hquiet.
  { unfold report, bind, emit, ret.
    by destruct (0 <? failedCount counts)%nat,
      (0 <? skippedCount counts)%nat. }
  rewrite bind_run. cbn. rewrite bind_run, Hloop. cbn.
  split; [done|]. intros _.
  rewrite written_cons, written_app, Hwritten, app_nil_r.
  rewrite failures_cons, failures_app, Hquiet, app_nil_r.
  assert (downloadedCount counts = length (written (events (loop s)))
          ∧ failedCount counts = length (failures (events (loop s))))
    as [Hd Hf].
  { rewrite Hcounts. unfold plus, zero. by cbn. }
  rewrite <- Hd, <- Hf. split.
  - apply elem_of_cons. right. apply elem_of_app. by right.
  - intros Hfailed. apply elem_of_cons. right. apply elem_of_app. right.
    apply Hwarn. rewrite Hf.
    destruct (failures (events (loop s))); [done|cbn; lia].
Qed.

Lemma download_all_completes fuel options files s :
  Forall (fun file =>
            Inj (=) (=) (candidate host (output options) (fileNameOf file)))
    files →
  result (listing client options s) = Ok files →
  size (places (final (listing client options s))) + length files < fuel →
  result (download_all host client fuel options s) = Ok tt.
Proof.
  intros Hinj Hlist Hfuel. unfold download_all.
  rewrite bind_run. cbn. rewrite try_catch_run, bind_run, Hlist.
  destruct (deliver_completes fuel (output options) files
              (final (listing client options s)) Hinj Hfuel)
    as [Hres _].
  cbn. by rewrite Hres.
Qed.



End Loops.



End IsolationFacts.

(** * The status of a command that failed *)

Module StatusFacts.
Import Slack Effects EffectsFacts.

Section Commands.
Context {W : Type} (host : Host W) (client : SlackClient W).

(** The lines of one draft: nothing refused, nothing on the error
    stream. *)
Lemma showDraft_clean all index draft (s : Machine W) :
  let r := Drafts.showDraft all index draft s in
  result r = Ok tt ∧ refusals (events r) = []
  ∧ errorLines (events r) = [].
Proof.
  cbv zeta. unfold Drafts.showDraft, bind, emit, ret.
  by destruct all.
Qed.


Lemma showDrafts_clean all drafts (s : Machine W) :
  let r := Drafts.showDrafts all drafts s in
  result r = Ok tt ∧ refusals (events r) = []
  ∧ errorLines (events r) = [].
Proof.
  cbv zeta. unfold Drafts.showDrafts.
  destruct (length drafts =? 0)%nat; [done|].
  set (body := fun index draft =>
                 bind (Drafts.showDraft (W:=W) all index draft)
                   (fun _ => ret (S index))).
  assert (∀ n draft s',
            (∃ n', result (body n draft s') = Ok n')
            ∧ refusals (events (body n draft s')) = []
            ∧ errorLines (events (body n draft s')) = []) as Hbody.
  { intros n draft s'. unfold body. rewrite bind_run.
    destruct (showDraft_clean all n draft s') as (H1 & H2 & H3).
    cbv zeta in H1, H2, H3. rewrite H1. cbn [result events ret].
    rewrite app_nil_r. split; [by eexists|done]. }
  destruct (settles_foldM body drafts (fun n d s' => proj1 (Hbody n d s'))
              0 s) as [n Hn].
  assert (refusals (events (foldM body drafts 0 s)) = []
          ∧ errorLines (events (foldM body drafts 0 s)) = [])
    as [Hr He].
  { apply (preserved_foldM
             (fun es => refusals es = [] ∧ errorLines es = [])).
    - done.
    - intros a b [Ha1 Ha2] [Hb1 Hb2].
      by rewrite refusals_app, errorLines_app, Ha1, Ha2, Hb1, Hb2.
    - intros n' d s'. apply Hbody. }
  clearbody body.
  rewrite bind_run. cbn. rewrite bind_run, Hn. cbn.
  read_trace. by rewrite Hr, He.
Qed.

Lemma status_of_refusals (refused : list string) :
  exit_status (match refused with
               | [] => Ok tt
               | _ => Exited 1
               end : outcome unit)
  = Some (if bool_decide (refused = []) then 0 else 1)%Z.
Proof. destruct refused; by case_bool_decide. Qed.

(** The actions of [messages] and [conversations mark-read] end with
    status 1 when the remote refuses. *)
Lemma scheduled_delete_status options s :
  let r := Messages.scheduled_delete client options s in
  result r = match refusals (events r) with
             | [] => Ok tt
             | _ => Exited 1
             end
  ∧ errorLines (events r) = refusals (events r).
Proof.
  cbv zeta.
  unfold Messages.scheduled_delete, Messages.authenticate, await,
    perform, bind, try_catch, emit, exit, ret.
  cbn.
  destruct (getAuthenticatedClient W client _ _) as [[[]|e] w1]; cbn;
    [|done].
  by destruct (deleteScheduledMessage W client _ _ _) as [[[]|e] w2].
Qed.

Lemma send_status options s :
  let r := Messages.send client options s in
  result r = match refusals (events r) with
             | [] => Ok tt
             | _ => Exited 1
             end
  ∧ errorLines (events r) = refusals (events r).
Proof.
  cbv zeta.
  unfold Messages.send, Messages.authenticate, Messages.resolveRecipient,
    await, perform, bind, try_catch, emit, exit, ret.
  cbn.
  destruct (getAuthenticatedClient W client _ _) as [[[]|e] w1]; cbn;
    [|done].
  destruct (JS.startsWith _ _); cbn.
  - destruct (openConversation W client _ _) as [[cid|e] w2]; cbn; [|done].
    by destruct (postMessage W client _ _ _ _) as [[t|e] w3].
  - by destruct (postMessage W client _ _ _ _) as [[t|e] w3].
Qed.

Lemma mark_read_status channelId options s :
  let r := Conversations.mark_read host client channelId options s in
  result r = match refusals (events r) with
             | [] => Ok tt
             | _ => Exited 1
             end
  ∧ errorLines (events r) = refusals (events r).
Proof.
  cbv zeta.
  unfold Conversations.mark_read, Messages.authenticate, await, observe,
    perform, bind, try_catch, emit, exit, ret.
  cbn.
  destruct (getAuthenticatedClient W client _ _) as [[[]|e] w1]; cbn;
    [|done].
  destruct (present (Conversations.ts_option options)); cbn;
    by destruct (markConversation W client _ _ _) as [[[]|e] w2].
Qed.

(** C9.  The three actions of [drafts] return whatever the remote
    replies, so that the process ends with status 0: a refusal is
    printed on the error stream, one line for [list] and [create],
    two lines for [delete], and no action exits.  For the same
    refusals [messages send], [messages delete-scheduled] and
    [conversations mark-read] print the error and exit with
    status 1. *)
Theorem drafts_failure_status options sent channelId marked s :
  let listed := Drafts.list client options s in
  let created := Drafts.create client options s in
  let deleted := Drafts.delete client options s in
  let posted := Messages.send client sent s in
  let unscheduled := Messages.scheduled_delete client sent s in
  let read := Conversations.mark_read host client channelId marked s in
  (result listed = Ok tt
   ∧ errorLines (events listed)
     = (fun e => "Error: " +:+ e) <$> refusals (events listed))
  ∧ (result created = Ok tt
     ∧ errorLines (events created)
       = (fun e => "Error: " +:+ e) <$> refusals (events created))
  ∧ (result deleted = Ok tt
     ∧ errorLines (events deleted)
       = refusals (events deleted)
           ≫= (fun e => ["Failed to delete draft"; "Error: " +:+ e]))
  ∧ exit_status (result listed) = Some 0%Z
  ∧ exit_status (result created) = Some 0%Z
  ∧ exit_status (result deleted) = Some 0%Z
  ∧ exit_status (result posted)
    = Some (if bool_decide (refusals (events posted) = []) then 0 else 1)%Z
  ∧ exit_status (result unscheduled)
    = Some (if bool_decide (refusals (events unscheduled) = [])
            then 0 else 1)%Z
  ∧ exit_status (result read)
    = Some (if bool_decide (refusals (events read) = []) then 0 else 1)%Z.
Proof.
  cbv zeta.
  assert (result (Drafts.list client options s) = Ok tt
          ∧ errorLines (events (Drafts.list client options s))
            = (fun e => "Error: " +:+ e)
                <$> refusals (events (Drafts.list client options s)))
    as Hlist.
  { unfold Drafts.list, Messages.authenticate.
    rewrite bind_run. cbn. rewrite try_catch_run, bind_run, perform_run.
    cbv zeta.
    destruct (getAuthenticatedClient W client _ _).1 as [[]|e]; cbn;
      [|done].
    set (s1 := {| world := _; disk := disk s; dirs := dirs s |}).
    unfold await. rewrite bind_run, perform_run. cbv zeta.
    destruct (listDrafts W client _ _).1 as [drafts|e]; cbn; [|done].
    set (s2 := {| world := _; disk := disk s; dirs := dirs s |}).
    destruct (showDrafts_clean (Drafts.all options) drafts s2)
      as (Hn & Hr & He).
    cbv zeta in Hn, Hr, He.
    destruct (Drafts.showDrafts (Drafts.all options) drafts s2)
      as [o f es].
    cbn in *. subst o. split; [done|].
    read_trace. by rewrite Hr, He. }
  assert (result (Drafts.create client options s) = Ok tt
          ∧ errorLines (events (Drafts.create client options s))
            = (fun e => "Error: " +:+ e)
                <$> refusals (events (Drafts.create client options s)))
    as Hcreate.
  { unfold Drafts.create, Messages.authenticate, await, perform, bind,
      try_catch, emit, ret.
    cbn.
    destruct (getAuthenticatedClient W client _ _) as [[[]|e] w1]; cbn;
      [|done].
    by destruct (createDraft W client _ _ _) as [[[id|]|e] w2]. }
  assert (result (Drafts.delete client options s) = Ok tt
          ∧ errorLines (events (Drafts.delete client options s))
            = refusals (events (Drafts.delete client options s))
                ≫= (fun e => ["Failed to delete draft"; "Error: " +:+ e]))
    as Hdelete.
  { unfold Drafts.delete, Messages.authenticate, await, perform, bind,
      try_catch, emit, ret.
    cbn.
    destruct (getAuthenticatedClient W client _ _) as [[[]|e] w1]; cbn;
      [|done].
    by destruct (deleteDraft W client _ _) as [[[]|e] w2]. }
  destruct (send_status sent s) as [Hsend _].
  destruct (scheduled_delete_status sent s) as [Hunscheduled _].
  destruct (mark_read_status channelId marked s) as [Hmark _].
  cbv zeta in Hsend, Hunscheduled, Hmark.
  destruct Hlist as [Hl1 Hl2], Hcreate as [Hc1 Hc2],
    Hdelete as [Hd1 Hd2].
  rewrite Hl1, Hc1, Hd1, Hsend, Hunscheduled, Hmark.
  split_and!; try done; apply status_of_refusals.
Qed.

End Commands.

(** The remote refuses to delete: [drafts delete] prints the two
    lines and returns, [messages delete-scheduled] exits with 1. *)
Lemma drafts_failure_status_witness :
  result (Drafts.delete Scenario.keeping Scenario.draft1 Scenario.start)
    = Ok tt
  ∧ errorLines (events (Drafts.delete Scenario.keeping Scenario.draft1
                          Scenario.start))
    = ["Failed to delete draft"; "Error: not_found"]
  ∧ exit_status (result (Drafts.delete Scenario.keeping Scenario.draft1
                           Scenario.start)) = Some 0%Z
  ∧ exit_status (result (Messages.scheduled_delete Scenario.keeping
                           Scenario.scheduled1 Scenario.start)) = Some 1%Z.
Proof.
  destruct (drafts_failure_status Scenario.host Scenario.keeping
              Scenario.draft1 Scenario.scheduled1 "C7" Scenario.showAndMark
              Scenario.start)
    as (_ & _ & (H1 & H2) & _ & _ & H3 & _ & H4 & _).
  split_and!; [exact H1|exact H2|exact H3|exact H4].
Defined.

End StatusFacts.

(** * The [unread] and [mark-read] commands as a whole *)

Module UnreadCommandFacts.
Import Slack Effects EffectsFacts Conversations.

Section Command.
Context {W : Type} (host : Host W) (client : SlackClient W).

(** ** The order of the conversations *)

Lemma insertByUnread_sorted ch sorted :
  StronglySorted (fun a b => (unread_count b ≤ unread_count a)%Z) sorted →
  StronglySorted (fun a b => (unread_count b ≤ unread_count a)%Z)
    (insertByUnread ch sorted).
Proof.
  induction 1 as [|other rest Hrest IH Hall]; cbn [insertByUnread].
  { repeat constructor. }
  rewrite Forall_forall in Hall.
  destruct (Z.ltb_spec (unread_count ch) (unread_count other)) as [Hlt|Hge].
  - constructor; [done|].
    apply Forall_forall. intros x Hx.
    rewrite (UnreadFacts.insertByUnread_perm ch rest) in Hx.
    apply elem_of_cons in Hx as [->|Hx]; [lia|by apply Hall].
  - constructor.
    + constructor; [done|by apply Forall_forall].
    + constructor; [done|].
      apply Forall_forall. intros x Hx. specialize (Hall x Hx). lia.
Qed.

Lemma insertByUnread_filter n ch sorted :
  List.filter (fun c => (unread_count c =? n)%Z) (insertByUnread ch sorted)
  = List.filter (fun c => (unread_count c =? n)%Z) (ch :: sorted).
Proof.
  induction sorted as [|other rest IH]; [done|]. cbn [insertByUnread].
  destruct (Z.ltb_spec (unread_count ch) (unread_count other)) as [Hlt|Hge];
    [|done].
  cbn [List.filter] in *. rewrite IH.
  destruct (Z.eqb_spec (unread_count ch) n),
    (Z.eqb_spec (unread_count other) n); try done; lia.
Qed.

Lemma sortByUnread_sorted chs :
  StronglySorted (fun a b => (unread_count b ≤ unread_count a)%Z)
    (sortByUnread chs).
Proof.
  unfold sortByUnread. induction chs as [|ch rest IH]; cbn [foldr].
  - constructor.
  - by apply insertByUnread_sorted.
Qed.

Lemma sortByUnread_filter n chs :
  List.filter (fun c => (unread_count c =? n)%Z) (sortByUnread chs)
  = List.filter (fun c => (unread_count c =? n)%Z) chs.
Proof.
  unfold sortByUnread. induction chs as [|ch rest IH]; [done|].
  cbn [foldr]. rewrite insertByUnread_filter. cbn [List.filter].
  by rewrite IH.
Qed.

(** X3.  The sort of the conversations by unread count gives the same
    conversations, those with more unread messages first, and keeps
    conversations with equal counts in the order of the remote. *)
Theorem sortByUnread_stable chs :
  sortByUnread chs ≡ₚ chs
  ∧ StronglySorted (fun a b => (unread_count b ≤ unread_count a)%Z)
      (sortByUnread chs)
  ∧ ∀ n, List.filter (fun c => (unread_count c =? n)%Z) (sortByUnread chs)
         = List.filter (fun c => (unread_count c =? n)%Z) chs.
Proof.
  split; [apply UnreadFacts.sortByUnread_perm|].
  split; [apply sortByUnread_sorted|].
  intros n. apply sortByUnread_filter.
Qed.

(** ** [mark-read] *)

Lemma stamp_wellFormed ms :
  wellFormedTs (JS.seconds_toFixed6 ms) = true.
Proof.
  unfold JS.seconds_toFixed6.
  set (whole := N.to_uint (Z.to_N (ms / 1000))).
  assert (whole ≠ Decimal.Nil) as Hnil.
  { subst whole. destruct (Z.to_N (ms / 1000)) as [|p]; [done|].
    apply DecimalPos.Unsigned.to_uint_nonnil. }
  destruct whole; done.
Qed.

(** X5.  [mark-read] marks the conversation given once, up to the
    timestamp of [--ts], or, when [--ts] is absent or empty, up to the
    reading of the clock, which is sent as a well-formed timestamp;
    it asks the remote for nothing else.  It returns when the remote
    accepts, and fails with status 1 and the error of the remote when
    it refuses.  The clock is read in the range in which its seconds
    are printed exactly. *)
Theorem mark_read_once channelId options s :
  (getAuthenticatedClient W client (workspace options) (world s)).1
    = Resolved tt →
  let w1 := (getAuthenticatedClient W client (workspace options)
               (world s)).2 in
  (present (ts_option options) = None →
   (0 ≤ date_now W host w1 < 8589934592000)%Z) →
  let stamp :=
    match ts_option options with
    | Some (String c t) => String c t
    | _ => JS.seconds_toFixed6 (date_now W host w1)
    end in
  let r := mark_read host client channelId options s in
  calls (events r) = [MarkConversation channelId stamp]
  ∧ (present (ts_option options) = None → wellFormedTs stamp = true)
  ∧ match (markConversation W client channelId stamp w1).1 with
    | Resolved _ => result r = Ok tt ∧ errorLines (events r) = []
    | Rejected e => result r = Exited 1 ∧ errorLines (events r) = [e]
    end.
Proof.
  intros Hauth w1 _ stamp r. subst r.
  unfold mark_read, Messages.authenticate.
  rewrite bind_run. cbn. rewrite try_catch_run, bind_run, perform_run.
  cbv zeta. rewrite Hauth. cbn. fold w1.
  assert (present (ts_option options) = None
          → stamp = JS.seconds_toFixed6 (date_now W host w1)) as Hdefault.
  { subst stamp. by destruct (ts_option options) as [[|c t]|]. }
  assert (∀ t, present (ts_option options) = Some t → stamp = t) as Hgiven.
  { subst stamp. intros t.
    destruct (ts_option options) as [[|c t']|]; cbn; congruence. }
  destruct (present (ts_option options)) as [t|] eqn:Hts.
  - rewrite (Hgiven t eq_refl). clear Hgiven Hdefault.
    unfold await, bind, ret, perform, emit. cbn.
    destruct (markConversation W client channelId t w1) as [[[]|e] w2];
      cbn; by split_and!.
  - rewrite (Hdefault eq_refl). clear Hgiven Hdefault.
    unfold await, observe, bind, ret, perform, emit. cbn.
    destruct (markConversation W client channelId _ w1) as [[[]|e] w2];
      cbn; (split_and!; [done|intros _; apply stamp_wellFormed|done|done]).
Qed.

(** ** [unread] *)

(** [showUnread] marks only when its loop has come to its end. *)
Lemma showUnread_abort options channels s :
  result (showUnread client options channels s) ≠ Ok tt →
  marks (events (showUnread client options channels s)) = [].
Proof.
  intros Hfail.
  set (loop := foldM (unreadOf client) channels
                 {| users := ∅; totalMessagesShown := 0;
                    latestTimestamps := [] |} s).
  destruct (result loop) as [st| | |] eqn:Hloop.
  { destruct Hfail.
    by apply (UnreadFacts.showUnread_completes client options channels s st). }
  all: unfold showUnread; rewrite bind_run; fold loop; rewrite Hloop;
    apply UnreadFacts.loop_marks_nothing.
Qed.

(** The run of [unread] once the client and the counts are there. *)
Lemma unread_run options s allChannels :
  (getAuthenticatedClient W client (workspace options) (world s)).1
    = Resolved tt →
  let w1 := (getAuthenticatedClient W client (workspace options)
               (world s)).2 in
  (getUserCounts W client w1).1 = Resolved allChannels →
  let s2 := {| world := (getUserCounts W client w1).2; disk := disk s;
               dirs := dirs s |} in
  let withUnread :=
    List.filter (fun ch => (0 <? unread_count ch)%Z) allChannels in
  let audible :=
    if includeMuted options then withUnread
    else List.filter (fun ch => negb (is_muted ch)) withUnread in
  let head := [Spinner Start "Fetching unread counts...";
               Authenticated (workspace options); Called GetUserCounts] in
  let wrapped selected :=
    let body := reportUnread client options selected s2 in
    match result body with
    | Thrown e =>
        Build_Run (Exited 1) (final body)
          (head ++ events body
           ++ [Spinner Fail "Failed to fetch unread messages"; PrintError e])
    | o => Build_Run o (final body) (head ++ events body)
    end in
  unread client options s =
  match present (channel options) with
  | Some target =>
      let only :=
        List.filter (fun ch => String.eqb (ch_id ch) target) audible in
      if (length only =? 0)%nat then
        if existsb (fun ch => String.eqb (ch_id ch) target) allChannels
        then Build_Run (Ok tt) s2
               (head ++ [Spinner Succeed "No unread messages in this channel"])
        else Build_Run (Exited 1) s2
               (head ++ [Spinner Fail
                           "Channel not found in your conversations"])
      else wrapped only
  | None => wrapped audible
  end.
Proof.
  intros Hauth w1 Hcounts s2 withUnread audible head wrapped.
  unfold unread.
  rewrite bind_run. cbn. rewrite try_catch_run.
  unfold Messages.authenticate. rewrite bind_run, perform_run. cbn.
  rewrite Hauth. cbn. fold w1.
  unfold await. rewrite bind_run, perform_run. cbn.
  rewrite Hcounts. cbn. fold s2. fold withUnread. fold audible.
  destruct (present (channel options)) as [target|]; cbv zeta.
  - set (only := List.filter _ audible).
    destruct (length only =? 0)%nat.
    + by destruct (existsb _ allChannels).
    + subst wrapped. cbv beta zeta.
      by destruct (reportUnread client options only s2) as [[[]|e|c|] f es].
  - subst wrapped. cbv beta zeta.
    by destruct (reportUnread client options audible s2) as [[[]|e|c|] f es].
Qed.

(** The run of [unread] when the client or the counts are refused. *)
Lemma unread_refused options s :
  let auth := getAuthenticatedClient W client (workspace options) (world s) in
  let r := unread client options s in
  match auth.1 with
  | Rejected e =>
      result r = Exited 1
      ∧ events r = [Spinner Start "Fetching unread counts...";
                    Authenticated (workspace options); Refused e;
                    Spinner Fail "Failed to fetch unread messages";
                    PrintError e]
  | Resolved _ =>
      match (getUserCounts W client auth.2).1 with
      | Rejected e =>
          result r = Exited 1
          ∧ events r = [Spinner Start "Fetching unread counts...";
                        Authenticated (workspace options);
                        Called GetUserCounts; Refused e;
                        Spinner Fail "Failed to fetch unread messages";
                        PrintError e]
      | Resolved _ => True
      end
  end.
Proof.
  cbv zeta. unfold unread.
  rewrite bind_run. cbn. rewrite try_catch_run.
  unfold Messages.authenticate. rewrite bind_run, perform_run. cbn.
  destruct (getAuthenticatedClient W client (workspace options)
              (world s)) as [[[]|e] w1]; cbn; [|done].
  unfold await. rewrite bind_run, perform_run. cbn.
  by destruct (getUserCounts W client w1) as [[allChannels|e] w2].
Qed.

(** What follows the selection without [--show]. *)
Lemma report_summary options selected (s : Machine W) :
  show options = false →
  reportUnread client options selected s
  = Build_Run (Ok tt) s
      ([Spinner Stop ""; ShowUnreadSummary (sortByUnread selected)]
       ++ if (0 <? length (sortByUnread selected))%nat
          then [ConsoleLog
                  "Use --show to view the actual messages, or --mark-read to mark all as read."]
          else []).
Proof.
  intros Hshow. unfold reportUnread. rewrite Hshow.
  unfold bind, emit, ret.
  by destruct (0 <? length (sortByUnread selected))%nat.
Qed.


(** X2.  [unread --channel X] when the counts arrive and [X] is not
    among the conversations left after the filters (unread messages,
    not muted unless [--include-muted]): if the remote lists [X] at
    all, also muted or without unread messages, the command says that
    there are no unread messages in the channel and returns; if it does
    not, the command fails with status 1.  In both cases the counts are
    the only request, and nothing is written to the error stream. *)
Theorem unread_channel_absent options target allChannels s :
  (getAuthenticatedClient W client (workspace options) (world s)).1
    = Resolved tt →
  (getUserCounts W client
     (getAuthenticatedClient W client (workspace options) (world s)).2).1
    = Resolved allChannels →
  present (channel options) = Some target →
  let withUnread :=
    List.filter (fun ch => (0 <? unread_count ch)%Z) allChannels in
  let audible :=
    if includeMuted options then withUnread
    else List.filter (fun ch => negb (is_muted ch)) withUnread in
  (∀ ch, ch ∈ audible → ch_id ch ≠ target) →
  let r := unread client options s in
  calls (events r) = [GetUserCounts]
  ∧ errorLines (events r) = []
  ∧ if bool_decide (target ∈ ch_id <$> allChannels)
    then result r = Ok tt
         ∧ Spinner Succeed "No unread messages in this channel" ∈ events r
    else result r = Exited 1
         ∧ Spinner Fail "Channel not found in your conversations"
           ∈ events r.
Proof.
  intros Hauth Hcounts Htarget withUnread audible Habsent r.
  pose proof (unread_run options s allChannels Hauth Hcounts) as Hrun.
  cbv zeta in Hrun. fold r in Hrun. rewrite Htarget in Hrun.
  fold withUnread in Hrun. fold audible in Hrun.
  assert (List.filter (fun ch => String.eqb (ch_id ch) target) audible = [])
    as Honly.
  { clearbody audible. clear Hrun.
    induction audible as [|ch rest IH]; [done|]. cbn.
    destruct (String.eqb_spec (ch_id ch) target) as [Heq|Hne].
    - destruct (Habsent ch); [by left|done].
    - apply IH. intros ch' Hin. apply Habsent. by right. }
  rewrite Honly in Hrun. cbn [length Nat.eqb] in Hrun.
  assert (existsb (fun ch => String.eqb (ch_id ch) target) allChannels
          = bool_decide (target ∈ ch_id <$> allChannels)) as Hex.
  { clear. induction allChannels as [|ch rest IH]; [done|]. cbn.
    rewrite IH. destruct (String.eqb_spec (ch_id ch) target) as [Heq|Hne].
    - symmetry. apply bool_decide_eq_true_2. rewrite Heq. by left.
    - cbn. apply bool_decide_ext. rewrite elem_of_cons.
      split; [by right|]. intros [Heq|Hin]; [by destruct Hne|done]. }
  rewrite Hex in Hrun.
  destruct (bool_decide (target ∈ ch_id <$> allChannels)); rewrite Hrun;
    (split_and!; [done|done|done|]); apply list_elem_of_In; cbn; auto.
Qed.

(** X4.  A run of [unread] that does not return marks nothing: when
    the history of one conversation cannot be fetched the command
    fails before the first mark-read call, also for the conversations
    whose messages it has shown. *)
Theorem unread_failure_marks_nothing options s :
  let r := unread client options s in
  result r ≠ Ok tt → marks (events r) = [].
Proof.
  intros r Hfail.
  pose proof (unread_refused options s) as Hrefused. cbv zeta in Hrefused.
  fold r in Hrefused.
  destruct (getAuthenticatedClient W client (workspace options)
              (world s)).1 as [[]|e] eqn:Hauth.
  2:{ by destruct Hrefused as [_ ->]. }
  destruct (getUserCounts W client
              (getAuthenticatedClient W client (workspace options)
                 (world s)).2).1 as [allChannels|e] eqn:Hcounts.
  2:{ by destruct Hrefused as [_ ->]. }
  clear Hrefused.
  pose proof (unread_run options s allChannels Hauth Hcounts) as Hrun.
  cbv zeta in Hrun. fold r in Hrun.
  set (s2 := {| world := _; disk := disk s; dirs := dirs s |}) in Hrun.
  set (audible := if includeMuted options then _ else _) in Hrun.
  assert (∀ selected,
            let body := reportUnread client options selected s2 in
            result body ≠ Ok tt → marks (events body) = []) as Hbody.
  { intros selected body Hb. subst body. revert Hb.
    destruct (show options) eqn:Hshow.
    - unfold reportUnread. rewrite Hshow, bind_run. cbn.
      intros Hb. rewrite marks_cons. by apply showUnread_abort.
    - rewrite (report_summary _ _ _ Hshow). by intros []. }
  assert (∀ selected,
            let body := reportUnread client options selected s2 in
            r = match result body with
                | Thrown e =>
                    Build_Run (Exited 1) (final body)
                      ([Spinner Start "Fetching unread counts...";
                        Authenticated (workspace options);
                        Called GetUserCounts] ++ events body
                       ++ [Spinner Fail "Failed to fetch unread messages";
                           PrintError e])
                | o => Build_Run o (final body)
                         ([Spinner Start "Fetching unread counts...";
                           Authenticated (workspace options);
                           Called GetUserCounts] ++ events body)
                end →
            marks (events r) = []) as Hwrapped.
  { intros selected body Hr. specialize (Hbody selected). fold body in Hbody.
    rewrite Hr in Hfail. rewrite Hr.
    destruct (result body) as [[]|e|c|] eqn:Hb; cbn [result events] in *;
      [done|..]; rewrite !marks_app, Hbody by (by rewrite Hb); done. }
  destruct (present (channel options)) as [target|].
  - cbv zeta in Hrun.
    set (only := List.filter _ audible) in Hrun.
    destruct (length only =? 0)%nat.
    + destruct (existsb _ allChannels); by rewrite Hrun.
    + by apply (Hwrapped only).
  - by apply (Hwrapped audible).
Qed.

End Command.

(** The muted conversation [M] has nine unread messages: asked for
    it alone, [unread] says there is nothing to read; asked for a
    conversation the remote does not list, it fails. *)
Lemma unread_channel_absent_witness :
  (result (unread Scenario.halfInbox (Scenario.onlyChannel "M")
             Scenario.start) = Ok tt
   ∧ Spinner Succeed "No unread messages in this channel"
     ∈ events (unread Scenario.halfInbox (Scenario.onlyChannel "M")
                 Scenario.start))
  ∧ result (unread Scenario.halfInbox (Scenario.onlyChannel "Z")
              Scenario.start) = Exited 1.
Proof.
  split.
  - refine (proj2 (proj2 (unread_channel_absent Scenario.halfInbox
                            (Scenario.onlyChannel "M") "M"
                            [Scenario.unreadB; Scenario.unreadM;
                             Scenario.unreadA]
                            Scenario.start eq_refl eq_refl eq_refl _))).
    intros ch Hin. apply list_elem_of_In in Hin. cbn in Hin.
    destruct Hin as [<-|[<-|[]]]; done.
  - refine (proj1 (proj2 (proj2 (unread_channel_absent Scenario.halfInbox
                            (Scenario.onlyChannel "Z") "Z"
                            [Scenario.unreadB; Scenario.unreadM;
                             Scenario.unreadA]
                            Scenario.start eq_refl eq_refl eq_refl _)))).
    intros ch Hin. apply list_elem_of_In in Hin. cbn in Hin.
    destruct Hin as [<-|[<-|[]]]; done.
Defined.

(** The messages of [A] are shown, the history of [B] is refused: the
    command fails and [A] is not marked. *)
Lemma unread_failure_marks_nothing_witness :
  result (unread Scenario.halfInbox Scenario.showAndMark Scenario.start)
    = Exited 1
  ∧ List.map ts (shownIn "A" (events (unread Scenario.halfInbox
                                        Scenario.showAndMark
                                        Scenario.start)))
    = ["101.000000"; "105.000000"]
  ∧ marks (events (unread Scenario.halfInbox Scenario.showAndMark
                     Scenario.start)) = [].
Proof.
  split; [reflexivity|]. split; [reflexivity|].
  apply (unread_failure_marks_nothing Scenario.halfInbox
           Scenario.showAndMark Scenario.start).
  discriminate.
Defined.

(** [mark-read C7] with the clock at 1 000 000 seconds. *)
Lemma mark_read_once_witness :
  calls (events (mark_read Scenario.host Scenario.remote "C7"
                   Scenario.markOnly Scenario.start))
  = [MarkConversation "C7" "1000000.000000"].
Proof.
  refine (proj1 (mark_read_once Scenario.host Scenario.remote "C7"
                   Scenario.markOnly Scenario.start eq_refl _)).
  intros _. cbn. lia.
Defined.


End UnreadCommandFacts.
